(** * CourseEnrollment: theme utilities and the lesson playback view

    A shallow embedding of the two pieces of logic of the front end:

    - the theme utility module ([themeClass], [getCssVar], [setCssVar],
      [systemPrefersDarkMode], [addColorSchemeListener]);
    - the [CoursePlayer] page component: resolution of the active lesson
      from the route parameters, the not-found branches, the completion
      toggle and the comment form.

    JavaScript strings are sequences of UTF-16 code units, objects live in
    a store and are referred to by location, and a thrown exception is an
    explicit outcome. *)

From Stdlib Require Import String Ascii.
From stdpp Require Import gmap list strings pretty.

Local Open Scope Z_scope.

(** ** JavaScript strings *)

(** A string is its list of UTF-16 code units. *)
Abbreviation jsstring := (list N).

(** The code units of a source literal (all literals of the program are
    ASCII). *)
Fixpoint lit (s : string) : jsstring :=
  match s with
  | EmptyString => []
  | String a s' => N_of_ascii a :: lit s'
  end.

(** ECMAScript [WhiteSpace] and [LineTerminator] code points, the ones
    [String.prototype.trim] strips; all of them are single code units. *)
Definition isWhiteSpace (c : N) : bool :=
  ( (c =? 0x09) || (c =? 0x0A) || (c =? 0x0B) || (c =? 0x0C) || (c =? 0x0D)
    || (c =? 0x20) || (c =? 0xA0) || (c =? 0x1680)
    || ((0x2000 <=? c) && (c <=? 0x200A))
    || (c =? 0x2028) || (c =? 0x2029) || (c =? 0x202F) || (c =? 0x205F)
    || (c =? 0x3000) || (c =? 0xFEFF) )%N.

Fixpoint trimStart (s : jsstring) : jsstring :=
  match s with
  | c :: s' => if isWhiteSpace c then trimStart s' else s
  | [] => []
  end.

Definition trimEnd (s : jsstring) : jsstring :=
  reverse (trimStart (reverse s)).

(** [String.prototype.trim] *)
Definition trim (s : jsstring) : jsstring := trimEnd (trimStart s).

(** Template literal [`--${name}`]. *)
Definition customProperty (name : jsstring) : jsstring := lit "--" ++ name.

(** ** JavaScript values *)

Inductive JSValue :=
  | JSUndefined
  | JSNull
  | JSBool (b : bool)
  | JSNumber (n : Z)          (* integral numbers *)
  | JSString (s : jsstring)
  | JSObject (ref : nat).     (* objects and functions, by identity *)

#[global] Instance JSValue_eq_dec : EqDecision JSValue.
Proof. solve_decision. Defined.

(** [ToBoolean] *)
Definition truthy (v : JSValue) : bool :=
  match v with
  | JSUndefined | JSNull => false
  | JSBool b => b
  | JSNumber n => negb (n =? 0)
  | JSString s => negb (bool_decide (s = []))
  | JSObject _ => true
  end.

(** Strict equality [===] (on the values above it is structural). *)
Definition strictEq (a b : JSValue) : bool := bool_decide (a = b).

(** A route parameter is [undefined] or a string. *)
Definition paramValue (p : option jsstring) : JSValue :=
  match p with
  | Some s => JSString s
  | None => JSUndefined
  end.

Definition truthyParam (p : option jsstring) : bool := truthy (paramValue p).

(** Outcome of a computation that may throw. *)
Inductive Exn := TypeError.

Inductive result (A : Type) :=
  | Ok (a : A)
  | Throw (e : Exn).
Arguments Ok {A} a.
Arguments Throw {A} e.

#[global] Instance result_ret : MRet result := λ A a, Ok a.

#[global] Instance result_bind : MBind result := λ A B k m,
  match m with
  | Ok a => k a
  | Throw e => Throw e
  end.

(** * Theme utility module *)

(** ** themeClass *)

Definition themeClass {A} (theme : JSValue) (lightClass darkClass : A) : A :=
  if strictEq theme (JSString (lit "dark")) then darkClass else lightClass.

(** ** getCssVar / setCssVar

    The document root's style declarations, as a key-value store from
    property names to values; a property that was never set reads as the
    empty string. *)

Abbreviation styleStore := (gmap jsstring jsstring).

Definition getPropertyValue (st : styleStore) (prop : jsstring) : jsstring :=
  default [] (st !! prop).

Definition setProperty (st : styleStore) (prop value : jsstring) : styleStore :=
  <[prop := value]> st.

Definition getCssVar (st : styleStore) (name : jsstring) : jsstring :=
  trim (getPropertyValue st (customProperty name)).

Definition setCssVar (st : styleStore) (name value : jsstring) : styleStore :=
  setProperty st (customProperty name) value.

(** ** The host's color-scheme media query

    Every call of [window.matchMedia] creates a new [MediaQueryList]
    object.  A modern host's object is an event target
    ([addEventListener] / [removeEventListener]); a legacy host's object
    only has [addListener] / [removeListener].  Callbacks are opaque to
    the utility module: a callback is known by its identity and each of
    its invocations is recorded in the host's call log. *)

(** The closure [(e) => callback(e.matches)]; a new function object, hence
    a new identity, for every registration. *)
Record Listener := mkListener {
  listener_id : nat;
  listener_callback : nat
}.

#[global] Instance Listener_eq_dec : EqDecision Listener.
Proof. solve_decision. Defined.

Record MediaQueryList := mkMQL {
  eventListeners : list (jsstring * Listener);   (* (event type, listener) *)
  legacyListeners : list Listener
}.

(** One invocation of a callback: the listener that made it, the callback,
    and the argument [e.matches]. *)
Record Call := mkCall {
  call_listener : nat;
  call_callback : nat;
  call_matches : bool
}.

Record Host := mkHost {
  hasMatchMedia : bool;      (* is [window.matchMedia] defined *)
  modern : bool;             (* do media query lists have [addEventListener] *)
  prefersDark : bool;        (* current OS color scheme *)
  mqls : list MediaQueryList;
  nextListener : nat;
  calls : list Call          (* oldest first *)
}.

Definition newHost (hasMM isModern dark : bool) : Host :=
  mkHost hasMM isModern dark [] 0 [].

Definition setMqls (h : Host) (qs : list MediaQueryList) : Host :=
  mkHost (hasMatchMedia h) (modern h) (prefersDark h) qs (nextListener h) (calls h).

(** [window.matchMedia('(prefers-color-scheme: dark)')]: the new object's
    location. *)
Definition matchMedia (h : Host) : Host * nat :=
  (setMqls h (mqls h ++ [mkMQL [] []]), length (mqls h)).

Definition alterMql (f : MediaQueryList → MediaQueryList) (q : nat) (h : Host) : Host :=
  setMqls h (alter f q (mqls h)).

(** DOM [addEventListener]: a listener already present for the type is not
    added twice. *)
Definition addEventListener (q : nat) (type : jsstring) (l : Listener) : Host → Host :=
  alterMql (λ m,
    if bool_decide ((type, l) ∈ eventListeners m) then m
    else mkMQL (eventListeners m ++ [(type, l)]) (legacyListeners m)) q.

Definition removeEventListener (q : nat) (type : jsstring) (l : Listener) : Host → Host :=
  alterMql (λ m,
    mkMQL (filter (λ tl, tl ≠ (type, l)) (eventListeners m)) (legacyListeners m)) q.

Definition addListener (q : nat) (l : Listener) : Host → Host :=
  alterMql (λ m,
    if bool_decide (l ∈ legacyListeners m) then m
    else mkMQL (eventListeners m) (legacyListeners m ++ [l])) q.

Definition removeListener (q : nat) (l : Listener) : Host → Host :=
  alterMql (λ m,
    mkMQL (eventListeners m) (filter (λ l', l' ≠ l) (legacyListeners m))) q.

(** The listeners a [change] event of one media query list reaches. *)
Definition changeListeners (m : MediaQueryList) : list Listener :=
  (filter (λ tl, tl.1 = lit "change") (eventListeners m)).*2 ++ legacyListeners m.

(** A listener run on a change event [e]: it calls its callback with
    [e.matches]. *)
Definition invoke (dark : bool) (l : Listener) : Call :=
  mkCall (listener_id l) (listener_callback l) dark.

(** The OS switches its color scheme: every media query list fires
    [change] at its listeners. *)
Definition schemeChange (dark : bool) (h : Host) : Host :=
  mkHost (hasMatchMedia h) (modern h) dark (mqls h) (nextListener h)
    (calls h ++ (invoke dark <$> (mqls h ≫= changeListeners))).

(** ** systemPrefersDarkMode

    [window.matchMedia && window.matchMedia(...).matches]: the operator
    [&&] yields its left operand when that operand is falsy. *)
Definition systemPrefersDarkMode (h : Host) : JSValue :=
  if hasMatchMedia h then JSBool (prefersDark h) else JSUndefined.

(** ** addColorSchemeListener *)

(** The returned function: it closes over [mediaQuery] and [listener]. *)
Record Unsubscribe := mkUnsubscribe {
  unsub_mediaQuery : nat;
  unsub_listener : Listener
}.

Definition addColorSchemeListener (callback : nat) (h : Host)
  : result (Host * Unsubscribe) :=
  if hasMatchMedia h then
    let '(h, mediaQuery) := matchMedia h in
    let listener := mkListener (nextListener h) callback in
    let h := mkHost (hasMatchMedia h) (modern h) (prefersDark h) (mqls h)
                    (S (nextListener h)) (calls h) in
    let h :=
      if modern h then addEventListener mediaQuery (lit "change") listener h
      else addListener mediaQuery listener h in
    Ok (h, mkUnsubscribe mediaQuery listener)
  else Throw TypeError.

(** Calling the returned function.  A media query list has
    [removeEventListener] exactly when it has [addEventListener]. *)
Definition callUnsubscribe (u : Unsubscribe) (h : Host) : Host :=
  if modern h then
    removeEventListener (unsub_mediaQuery u) (lit "change") (unsub_listener u) h
  else
    removeListener (unsub_mediaQuery u) (unsub_listener u) h.

(** What can happen on the host after a registration: the scheme changes,
    some client registers a callback, or some client calls a
    de-registration function. *)
Inductive HostAction :=
  | SchemeChange (dark : bool)
  | Subscribe (callback : nat)
  | CallUnsubscribe (u : Unsubscribe).

Definition step (h : Host) (a : HostAction) : Host :=
  match a with
  | SchemeChange dark => schemeChange dark h
  | Subscribe cb =>
      match addColorSchemeListener cb h with
      | Ok (h', _) => h'
      | Throw _ => h
      end
  | CallUnsubscribe u => callUnsubscribe u h
  end.

Definition run (t : list HostAction) (h : Host) : Host := foldl step h t.

(** The calls made after the log had length [n]. *)
Definition callsSince (n : nat) (h : Host) : list Call := drop n (calls h).

(** * CoursePlayer *)

(** ** The static catalog *)

Record Resource := mkResource {
  resource_name : jsstring;
  resource_url : jsstring;
  resource_type : jsstring
}.

Record Lesson := mkLesson {
  lesson_id : jsstring;
  lesson_title : jsstring;
  lesson_videoUrl : jsstring;
  lesson_duration : jsstring;
  lesson_isCompleted : bool;
  lesson_resources : list Resource
}.

(** Lesson objects live in a store and are referred to by location: the
    catalog's arrays and the component's [activeLesson] hold locations, so
    that the two can refer to one and the same object.  Objects are only
    ever added to the store (nothing in the program frees one). *)
Abbreviation loc := nat.
Abbreviation heap := (list Lesson).

(** The five lesson objects of the [courseLessons] literal, in source
    order; evaluating the module puts them at locations 0 to 4. *)
Definition catalogHeap : heap :=
  [ mkLesson (lit "lesson-1") (lit "Introduction to Web Development")
      (lit "https://www.youtube.com/embed/pQN-pnXPaVg") (lit "15:30") true
      [ mkResource (lit "Lesson Slides") (lit "#") (lit "pdf");
        mkResource (lit "Exercise Files") (lit "#") (lit "zip") ];
    mkLesson (lit "lesson-2") (lit "HTML Basics")
      (lit "https://www.youtube.com/embed/qz0aGYrrlhU") (lit "20:00") false
      [ mkResource (lit "HTML Cheat Sheet") (lit "#") (lit "pdf") ];
    mkLesson (lit "lesson-3") (lit "CSS Styling")
      (lit "https://www.youtube.com/embed/1PnVor36_40") (lit "25:10") false
      [];
    mkLesson (lit "js-lesson-1") (lit "JavaScript Introduction")
      (lit "https://www.youtube.com/embed/W6NZfCO5SIk") (lit "18:45") false
      [ mkResource (lit "JavaScript Cheatsheet") (lit "#") (lit "pdf") ];
    mkLesson (lit "js-lesson-2") (lit "Variables and Data Types")
      (lit "https://www.youtube.com/embed/hdI2bqOjy3c") (lit "22:15") false
      [] ].

(** The own properties of the [courseLessons] object: course identifier to
    the array of its lessons. *)
Definition courseLessons : gmap jsstring (list loc) :=
  <[lit "web-dev-101" := [0; 1; 2]%nat]>
    (<[lit "javascript-basics" := [3; 4]%nat]> ∅).

(** [courseLessons] is an object literal, so a property it does not own is
    looked up on [Object.prototype].  These are the names defined there;
    each holds a function, except [__proto__], which yields the prototype
    object itself. *)
Definition objectPrototypeKeys : list jsstring :=
  lit <$> [ "constructor"; "hasOwnProperty"; "isPrototypeOf";
            "propertyIsEnumerable"; "toLocaleString"; "toString"; "valueOf";
            "__proto__"; "__defineGetter__"; "__defineSetter__";
            "__lookupGetter__"; "__lookupSetter__" ]%string.

(** What [courseLessons[key]] evaluates to. *)
Inductive CatalogValue :=
  | CatUndefined
  | CatLessons (arr : list loc)
  | CatInherited.      (* a member of [Object.prototype]: truthy, not an array *)

(** [ToString] of a property key that is [undefined] or a string. *)
Definition propertyKey (k : option jsstring) : jsstring :=
  default (lit "undefined") k.

Definition courseLessons_get (courseId : option jsstring) : CatalogValue :=
  match courseLessons !! propertyKey courseId with
  | Some arr => CatLessons arr
  | None =>
      if bool_decide (propertyKey courseId ∈ objectPrototypeKeys)
      then CatInherited else CatUndefined
  end.

(** ** Component state *)

Inductive Tab := NotesTab | CommentsTab.

Record Comment := mkComment {
  comment_id : jsstring;
  comment_user : jsstring;
  comment_timestamp : jsstring;
  comment_text : jsstring
}.

Record State := mkState {
  activeLesson : option loc;      (* [None]: null or undefined *)
  activeTab : Tab;
  notes : jsstring;
  comments : list Comment;
  newComment : jsstring
}.

(** The [useState] initial values. *)
Definition initialState : State := mkState None NotesTab [] [] [].

(** [useParams()]: each parameter is [undefined] or a string. *)
Record Params := mkParams {
  courseId : option jsstring;
  lessonId : option jsstring
}.

Definition setActiveLesson (v : option loc) (st : State) : State :=
  mkState v (activeTab st) (notes st) (comments st) (newComment st).

(** ** Resolution of the active lesson *)

(** [const lessons = courseLessons[courseId] || []] *)
Definition lessonsOf (courseId : option jsstring) : CatalogValue :=
  match courseLessons_get courseId with
  | CatUndefined => CatLessons []
  | v => v
  end.

(** [lesson => lesson.id === lessonId], on the object at location [r]. *)
Definition hasId (h : heap) (lessonId : jsstring) (r : loc) : bool :=
  match h !! r with
  | Some lesson => bool_decide (lesson_id lesson = lessonId)
  | None => false
  end.

(** [Array.prototype.find] *)
Fixpoint find {A} (p : A → bool) (arr : list A) : option A :=
  match arr with
  | [] => None
  | x :: arr' => if p x then Some x else find p arr'
  end.

(** [lessons.find(lesson => lesson.id === lessonId)]; a member of
    [Object.prototype] has no [find] method. *)
Definition findLesson (h : heap) (lessonId : jsstring) (lessons : CatalogValue)
  : result (option loc) :=
  match lessons with
  | CatLessons arr => Ok (find (hasId h lessonId) arr)
  | _ => Throw TypeError
  end.

(** [lessons[0]]; a member of [Object.prototype] has no property [0]. *)
Definition firstLesson (lessons : CatalogValue) : option loc :=
  match lessons with
  | CatLessons arr => arr !! 0%nat
  | _ => None
  end.

(** [const initialLesson = lessonId ? lessons.find(...) : lessons[0]] *)
Definition initialLesson (h : heap) (p : Params) : result (option loc) :=
  let lessons := lessonsOf (courseId p) in
  match lessonId p with
  | Some lid =>
      if truthy (JSString lid) then findLesson h lid lessons
      else Ok (firstLesson lessons)
  | None => Ok (firstLesson lessons)
  end.

(** The effect run after mounting and whenever a parameter changes. *)
Definition useEffect (h : heap) (p : Params) (st : State) : result State :=
  l ← initialLesson h p; mret (setActiveLesson l st).

(** ** Rendering *)

Inductive View :=
  | CourseNotFound
  | LessonNotFound
  | Player (lesson : loc).

Definition render (p : Params) (st : State) : View :=
  if negb (truthyParam (courseId p))
     || match courseLessons_get (courseId p) with
        | CatUndefined => true
        | _ => false
        end
  then CourseNotFound
  else match activeLesson st with
       | None => LessonNotFound
       | Some l => Player l
       end.

(** Mounting the component at a route: initial state, then the effect. *)
Definition mount (h : heap) (p : Params) : result State :=
  useEffect h p initialState.

(** What the user gets to see at a route once the effect has run. *)
Definition view (h : heap) (p : Params) : result View :=
  st ← mount h p; mret (render p st).

(** ** Event handlers *)

(** [{ ...prev, isCompleted: !prev.isCompleted }] *)
Definition toggled (prev : Lesson) : Lesson :=
  mkLesson (lesson_id prev) (lesson_title prev) (lesson_videoUrl prev)
    (lesson_duration prev) (negb (lesson_isCompleted prev))
    (lesson_resources prev).

(** [setActiveLesson(prev => ({ ...prev, isCompleted: !prev.isCompleted }))]:
    the object literal is a new object, and the state is made to refer to
    it.  Reading [prev.isCompleted] of null or undefined throws. *)
Definition handleLessonComplete (h : heap) (st : State) : result (heap * State) :=
  match activeLesson st with
  | Some prev =>
      match h !! prev with
      | Some lesson =>
          Ok (h ++ [toggled lesson], setActiveLesson (Some (length h)) st)
      | None => Throw TypeError
      end
  | None => Throw TypeError
  end.

(** [Number.prototype.toString] of an integer (a time value is one, and
    small enough to be printed in plain decimal). *)
Definition numberToString (n : Z) : jsstring := lit (pretty n).

Section Handlers.
(** [Date.prototype.toISOString], of the host. *)
Variable toISOString : Z → jsstring.

(** [handlePostComment]; [now] is what [Date.now()] reads and [date] the
    time value of [new Date()]. *)
Definition handlePostComment (now date : Z) (st : State) : State :=
  if negb (bool_decide (trim (newComment st) = [])) then
    mkState (activeLesson st) (activeTab st) (notes st)
      (comments st ++
        [ mkComment (numberToString now) (lit "Current User")
            (toISOString date) (trim (newComment st)) ])
      []
  else st.
End Handlers.

(** * Predicates used in the statements *)

(** Empty or white space only. *)
Definition blank (s : jsstring) : Prop := Forall (λ c, isWhiteSpace c = true) s.

(** Does not start with white space. *)
Definition tightStart (s : jsstring) : Prop :=
  match s with
  | c :: _ => isWhiteSpace c = false
  | [] => True
  end.

(** Does not end with white space. *)
Definition tightEnd (s : jsstring) : Prop := tightStart (reverse s).

(** The lesson object the view currently holds. *)
Definition currentLesson (h : heap) (st : State) : option Lesson :=
  r ← activeLesson st; h !! r.

(** The object at location [r] is a lesson with identifier [lid]. *)
Definition lessonAt (h : heap) (lid : jsstring) (r : loc) : Prop :=
  ∃ lesson, h !! r = Some lesson ∧ lesson_id lesson = lid.

(** [res] is the first element of [arr] whose lesson has identifier [lid],
    and nothing when no element has. *)
Definition firstWithId (h : heap) (lid : jsstring) (arr : list loc)
    (res : option loc) : Prop :=
  match res with
  | Some r =>
      ∃ i, arr !! i = Some r ∧ lessonAt h lid r
        ∧ ∀ j r', (j < i)%nat → arr !! j = Some r' → ¬ lessonAt h lid r'
  | None => ∀ r, r ∈ arr → ¬ lessonAt h lid r
  end.

(** The two lessons differ at most in the completion flag. *)
Definition sameContent (a b : Lesson) : Prop :=
  lesson_id a = lesson_id b ∧ lesson_title a = lesson_title b
  ∧ lesson_videoUrl a = lesson_videoUrl b
  ∧ lesson_duration a = lesson_duration b
  ∧ lesson_resources a = lesson_resources b.

(** Where a listener sits in a media query list: registered for an event
    type, or on the legacy list. *)
Definition slot (isModern : bool) : option jsstring :=
  if isModern then Some (lit "change") else None.

(** [P q place l] holds of every listener [l] registered on any media
    query list [q] of the host. *)
Definition allEntries (P : nat → option jsstring → Listener → Prop)
    (h : Host) : Prop :=
  ∀ q m, mqls h !! q = Some m →
    (∀ ty l, (ty, l) ∈ eventListeners m → P q (Some ty) l)
    ∧ (∀ l, l ∈ legacyListeners m → P q None l).

(** The listener that made a call. *)
Definition listenerOf (c : Call) : Listener :=
  mkListener (call_listener c) (call_callback c).

(** The media query list a registration creates. *)
Definition freshMql (isModern : bool) (l : Listener) : MediaQueryList :=
  if isModern then mkMQL [(lit "change", l)] [] else mkMQL [] [l].

(** Every registered listener was created before [nextListener]. *)
Definition wfHost (h : Host) : Prop :=
  allEntries (λ _ _ l, (listener_id l < nextListener h)%nat) h.

(** The listener of registration [u] is registered nowhere but where
    [addColorSchemeListener] put it. *)
Definition placed (u : Unsubscribe) (h : Host) : Prop :=
  allEntries (λ q place l,
    listener_id l = listener_id (unsub_listener u) →
    q = unsub_mediaQuery u ∧ place = slot (modern h) ∧ l = unsub_listener u) h.

(** * Further functions of the theme utility module *)

(** [cssVar]: both definitions in the file build the same template literal
    [`var(--${name})`]. *)
Definition cssVar (name : jsstring) : jsstring :=
  lit "var(--" ++ name ++ lit ")".

Section ColorWithOpacity.
(** The numbers of the host and their [ToString]. *)
Variable number : Type.
Variable numberText : number → jsstring.

(** [`rgba(var(--${colorVar}-rgb), ${opacity})`] *)
Definition colorWithOpacity (colorVar : jsstring) (opacity : number) : jsstring :=
  lit "rgba(var(--" ++ colorVar ++ lit "-rgb), " ++ numberText opacity
    ++ lit ")".
End ColorWithOpacity.

(** The calls one change of the color scheme makes: what [schemeChange]
    appends to the log. *)
Definition changeCalls (dark : bool) (h : Host) : list Call :=
  invoke dark <$> (mqls h ≫= changeListeners).

(** * Further parts of CoursePlayer *)

(** ** What the player shows *)

(** [activeLesson.isCompleted ? 'Completed' : 'Mark as Complete'] *)
Definition completeButtonLabel (lesson : Lesson) : jsstring :=
  if lesson_isCompleted lesson then lit "Completed" else lit "Mark as Complete".

(** One link of the sidebar's lesson list. *)
Record SidebarEntry := mkSidebarEntry {
  entry_to : jsstring;
  entry_highlighted : bool;
  entry_title : jsstring;
  entry_duration : jsstring;
  entry_check : bool          (* the check mark *)
}.

(** The body of [lessons.map((lesson) => <Link ...>)]: the link goes to
    [`/dashboard/course-player/${courseId}/${lesson.id}`], it is
    highlighted when [activeLesson && activeLesson.id === lesson.id], and
    the check mark is [lesson.isCompleted] of the array's own object. *)
Definition sidebarEntry (h : heap) (p : Params) (st : State) (lesson : Lesson)
  : SidebarEntry :=
  mkSidebarEntry
    (lit "/dashboard/course-player/" ++ propertyKey (courseId p) ++ lit "/"
       ++ lesson_id lesson)
    (match currentLesson h st with
     | Some active => bool_decide (lesson_id active = lesson_id lesson)
     | None => false
     end)
    (lesson_title lesson) (lesson_duration lesson) (lesson_isCompleted lesson).

(** [lessons.map(...)]; a member of [Object.prototype] has no [map]
    method. *)
Definition sidebar (h : heap) (p : Params) (st : State)
  : result (list SidebarEntry) :=
  match lessonsOf (courseId p) with
  | CatLessons arr => Ok (omap (λ r, sidebarEntry h p st <$> h !! r) arr)
  | _ => Throw TypeError
  end.

(** The comments tab's list: a notice when [comments.length === 0],
    otherwise one block per comment, in order. *)
Inductive CommentList :=
  | NoCommentsYet
  | CommentBlocks (blocks : list Comment).

Definition commentList (st : State) : CommentList :=
  if bool_decide (length (comments st) = 0%nat) then NoCommentsYet
  else CommentBlocks (comments st).

(** ** The remaining state updates *)

Definition setActiveTab (t : Tab) (st : State) : State :=
  mkState (activeLesson st) t (notes st) (comments st) (newComment st).

Definition setNotes (v : jsstring) (st : State) : State :=
  mkState (activeLesson st) (activeTab st) v (comments st) (newComment st).

Definition setNewComment (v : jsstring) (st : State) : State :=
  mkState (activeLesson st) (activeTab st) (notes st) (comments st) v.

(** ** The mounted component and its events

    The route parameters, the object store, the component's state and the
    console ([handleSaveNotes] writes the notes to it and does nothing
    else). *)
Record World := mkWorld {
  w_params : Params;
  w_heap : heap;
  w_state : State;
  w_console : list jsstring
}.

#[global] Instance Params_eq_dec : EqDecision Params.
Proof. solve_decision. Defined.

(** The effect's dependencies are [courseId], [lessonId] and [lessons].
    For a known course [lessons] is the catalog's array, the same object
    at every render; for an unknown one it is a new [[]] each time. *)
Definition depsChanged (old new : Params) : bool :=
  negb (bool_decide (courseId old = courseId new))
  || negb (bool_decide (lessonId old = lessonId new))
  || match courseLessons_get (courseId new) with
     | CatUndefined => true
     | _ => false
     end.

(** One render of the component at route [p] with state [st]: past the
    two not-found branches the player is rendered, whose sidebar calls
    [lessons.map]. *)
Definition renderPage (h : heap) (p : Params) (st : State) : result View :=
  match render p st with
  | Player l => _ ← sidebar h p st; mret (Player l)
  | v => mret v
  end.

(** The route parameters change while the component stays mounted, as
    when a link of the sidebar is followed.  The component is first
    rendered with the new parameters and the state it has; an exception of
    that render loses the page, and the effect does not run.  Then the
    effect runs if one of its dependencies changed, and its
    [setActiveLesson] renders the component again. *)
Definition navigate (p : Params) (w : World) : result World :=
  _ ← renderPage (w_heap w) p (w_state w);
  if depsChanged (w_params w) p then
    st ← useEffect (w_heap w) p (w_state w);
    _ ← renderPage (w_heap w) p st;
    mret (mkWorld p (w_heap w) st (w_console w))
  else mret (mkWorld p (w_heap w) (w_state w) (w_console w)).

(** Opening the page at a route in a store [h]. *)
Definition openPage (h : heap) (p : Params) : result World :=
  st ← mount h p; mret (mkWorld p h st []).

Inductive UIEvent :=
  | ClickTab (t : Tab)
  | ChangeNotes (value : jsstring)
  | ChangeNewComment (value : jsstring)
  | ClickSaveNotes
  | SubmitComment (now date : Z)
  | ClickComplete
  | Navigate (p : Params).

Definition isNavigate (e : UIEvent) : bool :=
  match e with
  | Navigate _ => true
  | _ => false
  end.

Definition isClickComplete (e : UIEvent) : bool :=
  match e with
  | ClickComplete => true
  | _ => false
  end.

Section Events.
Variable toISOString : Z → jsstring.

Definition withState (st : State) (w : World) : World :=
  mkWorld (w_params w) (w_heap w) st (w_console w).

(** One event.  The events other than [Navigate] render the page again at
    the parameters it is already shown at, with a state that holds a
    lesson exactly if the state before did. *)
Definition uiStep (w : World) (e : UIEvent) : result World :=
  match e with
  | ClickTab t => mret (withState (setActiveTab t (w_state w)) w)
  | ChangeNotes v => mret (withState (setNotes v (w_state w)) w)
  | ChangeNewComment v => mret (withState (setNewComment v (w_state w)) w)
  | ClickSaveNotes =>
      mret (mkWorld (w_params w) (w_heap w) (w_state w)
              (w_console w ++ [notes (w_state w)]))
  | SubmitComment now date =>
      mret (withState (handlePostComment toISOString now date (w_state w)) w)
  | ClickComplete =>
      hs ← handleLessonComplete (w_heap w) (w_state w);
      mret (mkWorld (w_params w) hs.1 hs.2 (w_console w))
  | Navigate p => navigate p w
  end.

Fixpoint runUI (t : list UIEvent) (w : World) : result World :=
  match t with
  | [] => mret w
  | e :: t' => w' ← uiStep w e; runUI t' w'
  end.

(** The comment a submission with text [text] appends. *)
Definition commentOf (text : jsstring) (now date : Z) : Comment :=
  mkComment (numberToString now) (lit "Current User") (toISOString date)
    (trim text).

(** Typing a text into the comment form and submitting it. *)
Definition typeAndSubmit (s : jsstring * Z * Z) : list UIEvent :=
  [ChangeNewComment s.1.1; SubmitComment s.1.2 s.2].
End Events.

(** The lesson the mounted component holds. *)
Definition heldLesson (w : World) : option Lesson :=
  currentLesson (w_heap w) (w_state w).

(** A comment as [handlePostComment] makes them: by the placeholder author
    and with a text that is not empty and has no white space at either
    end. *)
Definition wellFormedComment (c : Comment) : Prop :=
  comment_user c = lit "Current User"
  ∧ comment_text c ≠ []
  ∧ tightStart (comment_text c) ∧ tightEnd (comment_text c).

(** * Properties of the theme utility module *)

Section ThemeClass.
Context {A : Type}.
Implicit Types (theme : JSValue) (lightValue darkValue : A).

Lemma strictEq_true a b : strictEq a b = true ↔ a = b.
Proof. unfold strictEq. apply bool_decide_eq_true. Qed.

Lemma strictEq_false a b : strictEq a b = false ↔ a ≠ b.
Proof. unfold strictEq. apply bool_decide_eq_false. Qed.

(** C9: [themeClass] yields the dark value when the theme is the string
    'dark' and the light value for every other theme value, whatever its
    type; being a total function, it always yields one of the two. *)
Theorem themeClass_spec theme lightValue darkValue :
  (theme = JSString (lit "dark") →
     themeClass theme lightValue darkValue = darkValue)
  ∧ (theme ≠ JSString (lit "dark") →
     themeClass theme lightValue darkValue = lightValue)
  ∧ (themeClass theme lightValue darkValue = darkValue
     ∨ themeClass theme lightValue darkValue = lightValue).
Proof.
  unfold themeClass. split; [|split].
  - intros Hth. apply strictEq_true in Hth. now rewrite Hth.
  - intros Hth. apply strictEq_false in Hth. now rewrite Hth.
  - destruct (strictEq theme _); [now left | now right].
Qed.
End ThemeClass.

Lemma themeClass_spec_witness :
  themeClass (JSString (lit "dark")) (lit "a") (lit "b") = lit "b"
  ∧ themeClass (JSString (lit "light")) (lit "a") (lit "b") = lit "a"
  ∧ themeClass JSUndefined (lit "a") (lit "b") = lit "a".
Proof.
  split; [|split].
  - apply (themeClass_spec (JSString (lit "dark"))). reflexivity.
  - apply (themeClass_spec (JSString (lit "light"))). discriminate.
  - apply (themeClass_spec JSUndefined). discriminate.
Defined.

(** ** The style store *)

Lemma customProperty_inj name1 name2 :
  customProperty name1 = customProperty name2 → name1 = name2.
Proof. unfold customProperty. apply app_inv_head. Qed.

(** C8: setting a CSS variable and then reading the variable of the same
    name gives back the value that was set, trimmed. *)
Theorem getCssVar_setCssVar (st : styleStore) (name value : jsstring) :
  getCssVar (setCssVar st name value) name = trim value.
Proof.
  unfold getCssVar, setCssVar, getPropertyValue, setProperty.
  now rewrite lookup_insert_eq.
Qed.

(** Setting one variable leaves every other variable as it was. *)
Lemma getCssVar_setCssVar_other (st : styleStore) (name other value : jsstring) :
  name ≠ other →
  getCssVar (setCssVar st name value) other = getCssVar st other.
Proof.
  intros Hne. unfold getCssVar, setCssVar, getPropertyValue, setProperty.
  rewrite lookup_insert_ne; [done|].
  intros Heq. now apply customProperty_inj in Heq.
Qed.

(** A variable that was never set reads as the empty string. *)
Lemma getCssVar_unset (name : jsstring) : getCssVar ∅ name = [].
Proof. unfold getCssVar, getPropertyValue. now rewrite lookup_empty. Qed.

(** ** systemPrefersDarkMode *)

(** With the media-query facility present the result is the boolean the
    query reports. *)
Lemma systemPrefersDarkMode_available (h : Host) :
  hasMatchMedia h = true → systemPrefersDarkMode h = JSBool (prefersDark h).
Proof. unfold systemPrefersDarkMode. now intros ->. Qed.

(** Without it nothing is thrown and the result is falsy, but it is
    [undefined], which is not a boolean. *)
Lemma systemPrefersDarkMode_unavailable (h : Host) :
  hasMatchMedia h = false →
  systemPrefersDarkMode h = JSUndefined
  ∧ truthy (systemPrefersDarkMode h) = false
  ∧ ∀ b, systemPrefersDarkMode h ≠ JSBool b.
Proof.
  unfold systemPrefersDarkMode. intros ->. repeat split. discriminate.
Qed.

(** C7: on a host without [window.matchMedia] the probe evaluates to
    [undefined]; it does not evaluate to the boolean false. *)
Theorem systemPrefersDarkMode_no_matchMedia :
  systemPrefersDarkMode (newHost false true false) = JSUndefined
  ∧ strictEq (systemPrefersDarkMode (newHost false true false)) (JSBool false)
    = false.
Proof. split; reflexivity. Qed.

(** * Properties of [trim] *)

Lemma trimStart_split s :
  ∃ pre, s = pre ++ trimStart s ∧ blank pre ∧ tightStart (trimStart s).
Proof.
  induction s as [|c s (pre & Hs & Hpre & Htight)]; simpl.
  - exists []. repeat split. constructor.
  - destruct (isWhiteSpace c) eqn:Hc.
    + exists (c :: pre). repeat split; [simpl; congruence | | done].
      now constructor.
    + exists []. repeat split; [constructor | done].
Qed.

Lemma trimStart_blank s : blank s → trimStart s = [].
Proof. induction 1 as [|c s Hc _ IH]; simpl; [done|]. now rewrite Hc. Qed.

Lemma trimStart_tight s : tightStart s → trimStart s = s.
Proof. destruct s as [|c s]; simpl; [done|]. now intros ->. Qed.

Lemma trimStart_nil_blank s : trimStart s = [] → blank s.
Proof.
  intros He. destruct (trimStart_split s) as (pre & Hs & Hpre & _).
  rewrite He, app_nil_r in Hs. now subst.
Qed.

Lemma blank_reverse s : blank s → blank (reverse s).
Proof. unfold blank. rewrite !Forall_forall. intros H c Hc. apply H. now apply elem_of_reverse. Qed.

Lemma trimEnd_split s :
  ∃ post, s = trimEnd s ++ post ∧ blank post ∧ tightEnd (trimEnd s).
Proof.
  unfold trimEnd, tightEnd.
  destruct (trimStart_split (reverse s)) as (pre & Hs & Hpre & Htight).
  exists (reverse pre). repeat split.
  - rewrite <- reverse_app, <- Hs. now rewrite reverse_involutive.
  - now apply blank_reverse.
  - now rewrite reverse_involutive.
Qed.

(** White space at the end is stripped without touching the start. *)
Lemma trimEnd_tightStart s : tightStart s → tightStart (trimEnd s).
Proof.
  intros Hs. destruct (trimEnd_split s) as (post & Heq & Hpost & _).
  destruct (trimEnd s) as [|c t] eqn:Ht; [done|].
  rewrite Heq in Hs. exact Hs.
Qed.

(** [trim] removes a blank prefix and a blank suffix, and what is left
    neither starts nor ends with white space. *)
Lemma trim_split s :
  ∃ pre post, s = pre ++ trim s ++ post
    ∧ blank pre ∧ blank post ∧ tightStart (trim s) ∧ tightEnd (trim s).
Proof.
  unfold trim.
  destruct (trimStart_split s) as (pre & Hs & Hpre & Htight).
  destruct (trimEnd_split (trimStart s)) as (post & Hs' & Hpost & Htight').
  exists pre, post. repeat split; try done.
  - now rewrite <- Hs'.
  - now apply trimEnd_tightStart.
Qed.

(** The text trims to the empty string exactly when it is empty or
    consists of white space only. *)
Lemma trim_nil_iff s : trim s = [] ↔ blank s.
Proof.
  split.
  - intros He. destruct (trim_split s) as (pre & post & Hs & Hpre & Hpost & _).
    rewrite He in Hs. simpl in Hs. subst s. now apply Forall_app.
  - intros Hs. unfold trim. now rewrite (trimStart_blank s Hs).
Qed.

(** A text without white space at either end is its own trimmed form. *)
Lemma trim_tight s : tightStart s → tightEnd s → trim s = s.
Proof.
  intros Hs He. unfold trim, trimEnd. rewrite (trimStart_tight s Hs).
  rewrite (trimStart_tight _ He). apply reverse_involutive.
Qed.

Lemma trim_idemp s : trim (trim s) = trim s.
Proof.
  destruct (trim_split s) as (_ & _ & _ & _ & _ & Hs & He). now apply trim_tight.
Qed.

(** * Properties of the comment form *)

Section PostComment.
Variable toISOString : Z → jsstring.
Implicit Types (st : State) (now date : Z).

Lemma handlePostComment_accept now date st :
  trim (newComment st) ≠ [] →
  handlePostComment toISOString now date st =
    mkState (activeLesson st) (activeTab st) (notes st)
      (comments st ++
        [ mkComment (numberToString now) (lit "Current User")
            (toISOString date) (trim (newComment st)) ])
      [].
Proof.
  intros Hne. unfold handlePostComment.
  now rewrite bool_decide_eq_false_2.
Qed.

Lemma handlePostComment_reject now date st :
  blank (newComment st) → handlePostComment toISOString now date st = st.
Proof.
  intros Hb. apply trim_nil_iff in Hb. unfold handlePostComment.
  now rewrite bool_decide_eq_true_2.
Qed.

(** C3: a text that trims to a non-empty string is appended as exactly
    one comment, after the comments already posted: its text is the
    trimmed input, its id the decimal rendering of the clock reading, its
    author 'Current User' and its timestamp the ISO rendering of the
    current date.  An empty or white-space-only text appends nothing. *)
Theorem handlePostComment_comments now date st :
  (trim (newComment st) ≠ [] →
     ∃ c, comments (handlePostComment toISOString now date st)
            = comments st ++ [c]
        ∧ comment_text c = trim (newComment st)
        ∧ comment_id c = numberToString now
        ∧ comment_user c = lit "Current User"
        ∧ comment_timestamp c = toISOString date)
  ∧ (blank (newComment st) →
     comments (handlePostComment toISOString now date st) = comments st).
Proof.
  split.
  - intros Hne. rewrite (handlePostComment_accept now date st Hne).
    eexists. simpl. repeat split.
  - intros Hb. now rewrite handlePostComment_reject.
Qed.

(** C10: a white-space-only submission leaves the whole state as it was,
    the input buffer included; a successful one empties the input buffer
    and leaves the notes, the active tab and the active lesson alone. *)
Theorem handlePostComment_frame now date st :
  (blank (newComment st) →
     handlePostComment toISOString now date st = st)
  ∧ (trim (newComment st) ≠ [] →
     let st' := handlePostComment toISOString now date st in
     newComment st' = []
     ∧ notes st' = notes st
     ∧ activeTab st' = activeTab st
     ∧ activeLesson st' = activeLesson st).
Proof.
  split.
  - apply handlePostComment_reject.
  - intros Hne. simpl. rewrite (handlePostComment_accept now date st Hne).
    repeat split.
Qed.
End PostComment.

(** Posting "hello" appends one comment with text "hello"; posting three
    spaces appends none. *)
Lemma handlePostComment_comments_witness :
  (∃ c, comments
          (handlePostComment (λ _, lit "2023-11-14T22:13:20.000Z")
             1700000000000 1700000000000
             (mkState (Some 0%nat) CommentsTab [] [] (lit "hello")))
        = [] ++ [c]
      ∧ comment_text c = lit "hello"
      ∧ comment_id c = lit "1700000000000"
      ∧ comment_user c = lit "Current User"
      ∧ comment_timestamp c = lit "2023-11-14T22:13:20.000Z")
  ∧ comments
      (handlePostComment (λ _, lit "2023-11-14T22:13:20.000Z")
         1700000000000 1700000000000
         (mkState (Some 0%nat) CommentsTab [] [] (lit "   ")))
    = [].
Proof.
  split.
  - apply (proj1 (handlePostComment_comments
                    (λ _, lit "2023-11-14T22:13:20.000Z")
                    1700000000000 1700000000000
                    (mkState (Some 0%nat) CommentsTab [] [] (lit "hello")))).
    vm_compute. discriminate.
  - apply (proj2 (handlePostComment_comments
                    (λ _, lit "2023-11-14T22:13:20.000Z")
                    1700000000000 1700000000000
                    (mkState (Some 0%nat) CommentsTab [] [] (lit "   ")))).
    repeat constructor.
Defined.

(** A submission of a space, a tab and a no-break space changes nothing;
    one of " hi " empties the input and keeps notes, tab and lesson. *)
Lemma handlePostComment_frame_witness :
  handlePostComment (λ _, lit "T") 5 6
    (mkState (Some 1%nat) CommentsTab (lit "my notes") [] [0x20; 0x09; 0xA0]%N)
  = mkState (Some 1%nat) CommentsTab (lit "my notes") [] [0x20; 0x09; 0xA0]%N
  ∧ (newComment
       (handlePostComment (λ _, lit "T") 5 6
          (mkState (Some 1%nat) CommentsTab (lit "my notes") [] (lit " hi ")))
     = []
     ∧ notes
         (handlePostComment (λ _, lit "T") 5 6
            (mkState (Some 1%nat) CommentsTab (lit "my notes") [] (lit " hi ")))
       = lit "my notes"
     ∧ activeTab
         (handlePostComment (λ _, lit "T") 5 6
            (mkState (Some 1%nat) CommentsTab (lit "my notes") [] (lit " hi ")))
       = CommentsTab
     ∧ activeLesson
         (handlePostComment (λ _, lit "T") 5 6
            (mkState (Some 1%nat) CommentsTab (lit "my notes") [] (lit " hi ")))
       = Some 1%nat).
Proof.
  split.
  - apply (proj1 (handlePostComment_frame (λ _, lit "T") 5 6
                    (mkState (Some 1%nat) CommentsTab (lit "my notes") []
                       [0x20; 0x09; 0xA0]%N))).
    repeat constructor.
  - apply (proj2 (handlePostComment_frame (λ _, lit "T") 5 6
                    (mkState (Some 1%nat) CommentsTab (lit "my notes") []
                       (lit " hi ")))).
    vm_compute. discriminate.
Defined.

(** * Properties of the catalog *)

Lemma courseLessons_lookup k arr :
  courseLessons !! k = Some arr →
  (k = lit "web-dev-101" ∧ arr = [0; 1; 2]%nat)
  ∨ (k = lit "javascript-basics" ∧ arr = [3; 4]%nat).
Proof.
  unfold courseLessons. intros H.
  apply lookup_insert_Some in H as [[<- <-]|[_ H]]; [now left|].
  apply lookup_insert_Some in H as [[<- <-]|[_ H]]; [now right|].
  now rewrite lookup_empty in H.
Qed.

(** Every location in a catalog array is one of the five catalog objects. *)
Lemma catalog_loc_valid k arr r :
  courseLessons !! k = Some arr → r ∈ arr → (r < length catalogHeap)%nat.
Proof.
  intros H Hr. simpl.
  destruct (courseLessons_lookup k arr H) as [[_ ->]|[_ ->]];
    repeat (apply elem_of_cons in Hr as [->|Hr]; [lia|]);
    now apply elem_of_nil in Hr.
Qed.

(** No course is named like a member of [Object.prototype]. *)
Lemma courseLessons_not_inherited k :
  k ∈ objectPrototypeKeys → courseLessons !! k = None.
Proof.
  intros Hk. destruct (courseLessons !! k) as [arr|] eqn:H; [|done].
  destruct (courseLessons_lookup k arr H) as [[-> _]|[-> _]];
    vm_compute in Hk; exfalso;
    repeat (apply elem_of_cons in Hk as [Hk|Hk]; [discriminate Hk|]);
    now apply elem_of_nil in Hk.
Qed.

Lemma courseLessons_get_own k arr :
  courseLessons !! k = Some arr → courseLessons_get (Some k) = CatLessons arr.
Proof. unfold courseLessons_get. simpl. now intros ->. Qed.

Lemma courseLessons_key_nonempty k arr :
  courseLessons !! k = Some arr → truthyParam (Some k) = true.
Proof.
  intros H. now destruct (courseLessons_lookup k arr H) as [[-> _]|[-> _]].
Qed.

(** * Resolution of the active lesson *)

Lemma hasId_true h lid r : hasId h lid r = true ↔ lessonAt h lid r.
Proof.
  unfold hasId, lessonAt. destruct (h !! r) as [lesson|].
  - rewrite bool_decide_eq_true. split; [eauto|]. now intros (? & [= <-] & ?).
  - split; [done|]. now intros (? & ? & _).
Qed.

(** [find] yields the first element that satisfies the predicate. *)
Lemma find_first {A} (p : A → bool) (arr : list A) :
  match find p arr with
  | Some x =>
      ∃ i, arr !! i = Some x ∧ p x = true
        ∧ ∀ j y, (j < i)%nat → arr !! j = Some y → p y = false
  | None => ∀ y, y ∈ arr → p y = false
  end.
Proof.
  induction arr as [|a arr IH]; simpl.
  - intros y Hy. now apply elem_of_nil in Hy.
  - destruct (p a) eqn:Hpa.
    + exists 0%nat. repeat split; [done|]. intros j y Hj. lia.
    + destruct (find p arr) as [x|].
      * destruct IH as (i & Hi & Hpx & Hbefore). exists (S i).
        repeat split; [done..|].
        intros [|j] y Hj Hy; simpl in Hy; [congruence|].
        apply (Hbefore j); [lia|done].
      * intros y Hy. apply elem_of_cons in Hy as [->|Hy]; auto.
Qed.

Lemma find_firstWithId h lid arr : firstWithId h lid arr (find (hasId h lid) arr).
Proof.
  pose proof (find_first (hasId h lid) arr) as H. unfold firstWithId.
  destruct (find (hasId h lid) arr) as [r|].
  - destruct H as (i & Hi & Hp & Hbefore). exists i.
    repeat split; [done|now apply hasId_true|].
    intros j r' Hj Hr' Hat. apply hasId_true in Hat.
    rewrite (Hbefore j r' Hj Hr') in Hat. discriminate.
  - intros r Hr Hat. apply hasId_true in Hat. rewrite (H r Hr) in Hat.
    discriminate.
Qed.

Lemma truthy_string s : truthy (JSString s) = true ↔ s ≠ [].
Proof.
  simpl. rewrite negb_true_iff. apply bool_decide_eq_false.
Qed.

Lemma initialLesson_supplied h k arr lid :
  courseLessons !! k = Some arr → lid ≠ [] →
  initialLesson h (mkParams (Some k) (Some lid)) = Ok (find (hasId h lid) arr).
Proof.
  intros Hk Hlid. unfold initialLesson, lessonsOf. simpl lessonId. simpl courseId.
  rewrite (courseLessons_get_own k arr Hk).
  apply truthy_string in Hlid. now rewrite Hlid.
Qed.

Lemma initialLesson_default h k arr :
  courseLessons !! k = Some arr →
  initialLesson h (mkParams (Some k) None) = Ok (head arr).
Proof.
  intros Hk. unfold initialLesson, lessonsOf. simpl lessonId. simpl courseId.
  rewrite (courseLessons_get_own k arr Hk). simpl. now destruct arr.
Qed.

(** An empty lesson parameter is falsy: it resolves like an absent one. *)
Lemma initialLesson_empty h k arr :
  courseLessons !! k = Some arr →
  initialLesson h (mkParams (Some k) (Some [])) = Ok (head arr).
Proof.
  intros Hk. unfold initialLesson, lessonsOf. simpl lessonId. simpl courseId.
  rewrite (courseLessons_get_own k arr Hk). simpl. now destruct arr.
Qed.

(** C1: for a course of the catalog, a supplied lesson identifier resolves
    to the first element of the course's lesson list whose id equals it
    (to nothing when there is none), and an absent one to the first lesson
    of the list; for 'web-dev-101' without a lesson identifier the active
    lesson is the one with id 'lesson-1'. *)
Theorem mount_resolves_active_lesson (h : heap) (k : jsstring) (arr : list loc) :
  courseLessons !! k = Some arr →
  (∀ lid, lid ≠ [] →
     ∃ st, mount h (mkParams (Some k) (Some lid)) = Ok st
         ∧ firstWithId h lid arr (activeLesson st))
  ∧ (∃ st, mount h (mkParams (Some k) None) = Ok st
         ∧ activeLesson st = head arr)
  ∧ (∃ st lesson,
       mount catalogHeap (mkParams (Some (lit "web-dev-101")) None) = Ok st
       ∧ currentLesson catalogHeap st = Some lesson
       ∧ lesson_id lesson = lit "lesson-1").
Proof.
  intros Hk. split; [|split].
  - intros lid Hlid. unfold mount, useEffect.
    rewrite (initialLesson_supplied h k arr lid Hk Hlid).
    eexists. split; [reflexivity|]. simpl. apply find_firstWithId.
  - unfold mount, useEffect. rewrite (initialLesson_default h k arr Hk).
    eexists. split; reflexivity.
  - eexists _, _. repeat split.
Qed.

Lemma mount_resolves_active_lesson_witness :
  (∃ st, mount catalogHeap
           (mkParams (Some (lit "web-dev-101")) (Some (lit "lesson-2"))) = Ok st
       ∧ firstWithId catalogHeap (lit "lesson-2") [0; 1; 2]%nat (activeLesson st))
  ∧ (∃ st, mount catalogHeap (mkParams (Some (lit "web-dev-101")) None) = Ok st
       ∧ activeLesson st = Some 0%nat).
Proof.
  destruct (mount_resolves_active_lesson catalogHeap (lit "web-dev-101")
              [0; 1; 2]%nat eq_refl) as (Hsupplied & Hdefault & _).
  split; [|exact Hdefault].
  apply Hsupplied. discriminate.
Defined.

(** * The not-found views *)

Lemma courseLessons_get_absent k :
  courseLessons !! k = None → k ∉ objectPrototypeKeys →
  courseLessons_get (Some k) = CatUndefined.
Proof.
  intros Hk Hproto. unfold courseLessons_get. simpl. rewrite Hk.
  now rewrite bool_decide_eq_false_2.
Qed.

(** A course identifier that names neither a course nor a member of
    [Object.prototype] gives the 'Course Not Found' view, with or without
    a lesson identifier, and nothing is thrown. *)
Lemma view_course_not_found h k lessonParam :
  courseLessons !! k = None → k ∉ objectPrototypeKeys →
  view h (mkParams (Some k) lessonParam) = Ok CourseNotFound.
Proof.
  intros Hk Hproto.
  assert (∃ l, initialLesson h (mkParams (Some k) lessonParam) = Ok l)
    as [l Hl].
  { unfold initialLesson, lessonsOf. simpl courseId. simpl lessonId.
    rewrite (courseLessons_get_absent k Hk Hproto).
    destruct lessonParam as [lid|]; [destruct (truthy (JSString lid))|];
      simpl; eauto. }
  unfold view, mount, useEffect. rewrite Hl. simpl. unfold render.
  simpl courseId. rewrite (courseLessons_get_absent k Hk Hproto).
  now rewrite orb_true_r.
Qed.

(** So does a missing course parameter. *)
Lemma view_no_course h lessonParam :
  view h (mkParams None lessonParam) = Ok CourseNotFound.
Proof.
  destruct lessonParam as [lid|]; [|reflexivity].
  unfold view, mount, useEffect, initialLesson. simpl.
  now destruct (bool_decide (lid = [])).
Qed.

(** A course of the catalog with a lesson identifier that none of its
    lessons has gives the 'Lesson Not Found' view. *)
Lemma view_lesson_not_found h k arr lid :
  courseLessons !! k = Some arr → lid ≠ [] →
  (∀ r, r ∈ arr → ¬ lessonAt h lid r) →
  view h (mkParams (Some k) (Some lid)) = Ok LessonNotFound.
Proof.
  intros Hk Hlid Hnone. unfold view, mount, useEffect.
  rewrite (initialLesson_supplied h k arr lid Hk Hlid).
  pose proof (find_firstWithId h lid arr) as Hfind.
  destruct (find (hasId h lid) arr) as [r|] eqn:Hf.
  - destruct Hfind as (i & Hi & Hat & _).
    exfalso. apply (Hnone r); [|done]. now apply list_elem_of_lookup_2 in Hi.
  - simpl. unfold render. simpl courseId.
    rewrite (courseLessons_key_nonempty k arr Hk).
    now rewrite (courseLessons_get_own k arr Hk).
Qed.

(** C2: 'constructor' is no course of the catalog, yet the lookup
    [courseLessons['constructor']] finds the inherited member of
    [Object.prototype]: without a lesson identifier the view is 'Lesson Not
    Found' instead of 'Course Not Found', and with one the effect throws a
    TypeError. *)
Theorem view_inherited_course_name :
  courseLessons !! lit "constructor" = None
  ∧ view catalogHeap (mkParams (Some (lit "constructor")) None)
    = Ok LessonNotFound
  ∧ view catalogHeap
      (mkParams (Some (lit "constructor")) (Some (lit "lesson-1")))
    = Throw TypeError.
Proof. repeat split. Qed.

(** * The completion toggle *)

Lemma toggled_toggled lesson : toggled (toggled lesson) = lesson.
Proof. destruct lesson. unfold toggled. simpl. now rewrite negb_involutive. Qed.

Lemma handleLessonComplete_Ok h st lesson :
  currentLesson h st = Some lesson →
  handleLessonComplete h st
    = Ok (h ++ [toggled lesson], setActiveLesson (Some (length h)) st).
Proof.
  unfold currentLesson, handleLessonComplete.
  destruct (activeLesson st) as [r|]; simpl; [|done]. now intros ->.
Qed.

Lemma currentLesson_new h st lesson :
  currentLesson (h ++ [lesson]) (setActiveLesson (Some (length h)) st)
    = Some lesson.
Proof.
  unfold currentLesson. simpl. apply list_lookup_middle. done.
Qed.

(** C4: one toggle flips the completion flag of the lesson the view holds
    and nothing else of it; a second toggle brings the lesson back to what
    it was. *)
Theorem handleLessonComplete_involution (h : heap) (st : State) (lesson : Lesson) :
  currentLesson h st = Some lesson →
  ∃ h1 st1 lesson1,
    handleLessonComplete h st = Ok (h1, st1)
    ∧ currentLesson h1 st1 = Some lesson1
    ∧ lesson_isCompleted lesson1 = negb (lesson_isCompleted lesson)
    ∧ sameContent lesson1 lesson
    ∧ ∃ h2 st2,
        handleLessonComplete h1 st1 = Ok (h2, st2)
        ∧ currentLesson h2 st2 = Some lesson.
Proof.
  intros Hcur.
  exists (h ++ [toggled lesson]), (setActiveLesson (Some (length h)) st),
    (toggled lesson).
  split; [exact (handleLessonComplete_Ok h st lesson Hcur)|].
  split; [apply currentLesson_new|].
  split; [reflexivity|]. split; [repeat split|].
  eexists _, _. split.
  - apply handleLessonComplete_Ok. apply currentLesson_new.
  - rewrite toggled_toggled. apply currentLesson_new.
Qed.

Lemma handleLessonComplete_involution_witness :
  ∃ h1 st1 lesson1,
    handleLessonComplete catalogHeap (setActiveLesson (Some 0%nat) initialState)
      = Ok (h1, st1)
    ∧ currentLesson h1 st1 = Some lesson1
    ∧ lesson_isCompleted lesson1 = false
    ∧ ∃ h2 st2,
        handleLessonComplete h1 st1 = Ok (h2, st2)
        ∧ currentLesson h2 st2 = catalogHeap !! 0%nat.
Proof.
  destruct (handleLessonComplete_involution catalogHeap
              (setActiveLesson (Some 0%nat) initialState) _ eq_refl)
    as (h1 & st1 & lesson1 & H1 & Hcur1 & Hflag & _ & h2 & st2 & H2 & Hcur2).
  exists h1, st1, lesson1.
  split; [exact H1|]. split; [exact Hcur1|]. split; [exact Hflag|].
  exists h2, st2. split; [exact H2|exact Hcur2].
Defined.

(** * The toggle and the shared catalog *)

Lemma find_ext_in {A} (p q : A → bool) (arr : list A) :
  (∀ x, x ∈ arr → p x = q x) → find p arr = find q arr.
Proof.
  induction arr as [|a arr IH]; intros Hpq; simpl; [done|].
  rewrite <- (Hpq a) by apply list_elem_of_here.
  destruct (p a); [done|]. apply IH. intros x Hx. apply Hpq. now right.
Qed.

(** A store that extends the catalog's agrees with it on the catalog's
    locations. *)
Lemma extends_lookup (h : heap) r :
  catalogHeap `prefix_of` h → (r < length catalogHeap)%nat →
  h !! r = catalogHeap !! r.
Proof.
  intros Hpre Hr. apply lookup_lt_is_Some_2 in Hr as [lesson Hl].
  rewrite Hl. now apply (prefix_lookup_Some catalogHeap).
Qed.

(** What [lessons] can be: a catalog array or the empty array, unless the
    course parameter names a member of [Object.prototype]. *)
Lemma lessonsOf_array c arr :
  lessonsOf c = CatLessons arr →
  arr = [] ∨ ∃ k, courseLessons !! k = Some arr.
Proof.
  unfold lessonsOf, courseLessons_get.
  destruct (courseLessons !! propertyKey c) as [arr'|] eqn:Hk.
  - intros [= <-]. right. eauto.
  - case_bool_decide; [discriminate|]. intros [= <-]. now left.
Qed.

Lemma initialLesson_extends (h : heap) p :
  catalogHeap `prefix_of` h → initialLesson h p = initialLesson catalogHeap p.
Proof.
  intros Hpre. unfold initialLesson.
  destruct (lessonId p) as [lid|]; [|done].
  destruct (truthy (JSString lid)); [|done].
  unfold findLesson. destruct (lessonsOf (courseId p)) as [|arr|] eqn:Hl; try done.
  f_equal. apply find_ext_in. intros r Hr. unfold hasId.
  destruct (lessonsOf_array _ _ Hl) as [->|[k Hk]].
  - now apply elem_of_nil in Hr.
  - rewrite extends_lookup; [done..|]. now apply (catalog_loc_valid k arr).
Qed.

(** The lesson resolved at a route is one of the catalog's objects. *)
Lemma initialLesson_catalog_loc h p r :
  initialLesson h p = Ok (Some r) →
  ∃ k arr, courseLessons !! k = Some arr ∧ r ∈ arr.
Proof.
  unfold initialLesson, findLesson, firstLesson.
  assert (∀ arr, lessonsOf (courseId p) = CatLessons arr → r ∈ arr →
          ∃ k arr, courseLessons !! k = Some arr ∧ r ∈ arr) as Hin.
  { intros arr Hl Hr. destruct (lessonsOf_array _ _ Hl) as [->|[k Hk]]; [|eauto].
    now apply elem_of_nil in Hr. }
  assert (∀ arr : list loc, arr !! 0%nat = Some r → r ∈ arr) as Hhead.
  { intros arr. apply list_elem_of_lookup_2. }
  destruct (lessonsOf (courseId p)) as [|arr|] eqn:Hl;
    destruct (lessonId p) as [lid|]; try destruct (truthy (JSString lid));
    try discriminate; intros [= Hres]; try discriminate;
    apply (Hin arr eq_refl); auto.
  pose proof (find_first (hasId h lid) arr) as Hf. rewrite Hres in Hf.
  destruct Hf as (i & Hi & _). now apply list_elem_of_lookup_2 in Hi.
Qed.

(** C5: in a store that still begins with the catalog's objects (as it
    does initially, and as it does again after the toggle), the toggle
    leaves every object that was in the store as it was,
    so each entry of the catalog keeps its completion flag and all its
    other fields; the flipped lesson is a new object that no catalog array
    refers to.  Resolving a route afterwards, as happens on navigating
    away and back, gives the catalog's lesson as if no toggle had taken
    place. *)
Theorem handleLessonComplete_catalog_unchanged
    (h h' : heap) (st st' : State) :
  catalogHeap `prefix_of` h →
  handleLessonComplete h st = Ok (h', st') →
  catalogHeap `prefix_of` h'
  ∧ (∀ r lesson, h !! r = Some lesson → h' !! r = Some lesson)
  ∧ (∀ k arr r, courseLessons !! k = Some arr → r ∈ arr →
       is_Some (catalogHeap !! r) ∧ h' !! r = catalogHeap !! r)
  ∧ (∀ k arr r, courseLessons !! k = Some arr →
       activeLesson st' = Some r → r ∉ arr)
  ∧ (∀ p, mount h' p = mount catalogHeap p)
  ∧ (∀ p st0, mount h' p = Ok st0 →
       currentLesson h' st0 = currentLesson catalogHeap st0).
Proof.
  intros Hpre Htoggle. unfold handleLessonComplete in Htoggle.
  destruct (activeLesson st) as [prev|]; [|discriminate].
  destruct (h !! prev) as [lesson|]; [|discriminate].
  injection Htoggle as <- <-.
  assert (catalogHeap `prefix_of` h ++ [toggled lesson]) as Hpre'
    by now apply prefix_app_r.
  split; [done|]. split; [|split; [|split; [|split]]].
  - intros r l Hr. now apply lookup_app_l_Some.
  - intros k arr r Hk Hr. pose proof (catalog_loc_valid k arr r Hk Hr) as Hlt.
    split; [now apply lookup_lt_is_Some_2|]. now apply extends_lookup.
  - intros k arr r Hk [= <-] Hr.
    pose proof (catalog_loc_valid k arr _ Hk Hr) as Hlt.
    apply prefix_length in Hpre. lia.
  - intros p. unfold mount, useEffect. now rewrite initialLesson_extends.
  - intros p st0. unfold mount, useEffect.
    destruct (initialLesson (h ++ [toggled lesson]) p) as [[r|]|] eqn:Hinit;
      simpl; intros [= <-]; unfold currentLesson; simpl; [|done].
    destruct (initialLesson_catalog_loc _ _ _ Hinit) as (k & arr & Hk & Hr).
    apply extends_lookup; [done|]. now apply (catalog_loc_valid k arr).
Qed.

(** Toggling lesson-1 of 'web-dev-101' and coming back to the course shows
    it with the catalog's flag again. *)
Lemma handleLessonComplete_catalog_unchanged_witness :
  ∃ h' st',
    handleLessonComplete catalogHeap (setActiveLesson (Some 0%nat) initialState)
      = Ok (h', st')
    ∧ lesson_isCompleted <$> currentLesson h' st' = Some false
    ∧ h' !! 0%nat = catalogHeap !! 0%nat
    ∧ ∀ p, mount h' p = mount catalogHeap p.
Proof.
  eexists _, _. split; [reflexivity|]. split; [reflexivity|].
  destruct (handleLessonComplete_catalog_unchanged catalogHeap _
              (setActiveLesson (Some 0%nat) initialState) _
              (reflexivity catalogHeap) eq_refl)
    as (_ & _ & Hcat & _ & Hmount & _).
  split; [|exact Hmount].
  apply (Hcat (lit "web-dev-101") [0; 1; 2]%nat 0%nat eq_refl).
  apply list_elem_of_here.
Defined.

(** * De-registration of color-scheme listeners *)

Section Listeners.
Local Open Scope nat_scope.
Implicit Types (h : Host) (a : HostAction) (t : list HostAction)
  (l : Listener) (u : Unsubscribe) (m : MediaQueryList).

Lemma allEntries_impl (P Q : nat → option jsstring → Listener → Prop) h :
  (∀ q place l, P q place l → Q q place l) →
  allEntries P h → allEntries Q h.
Proof.
  intros HPQ HP q m Hm. destruct (HP q m Hm) as [He Hl].
  split; eauto.
Qed.

Lemma allEntries_newHost P hasMM isModern dark :
  allEntries P (newHost hasMM isModern dark).
Proof. intros q m Hm. simpl in Hm. now rewrite lookup_nil in Hm. Qed.

(** *** The primitives of the host *)

Lemma lookup_alterMql f q h q' m' :
  mqls (alterMql f q h) !! q' = Some m' →
  ∃ m, mqls h !! q' = Some m
     ∧ ((q' ≠ q ∧ m' = m) ∨ (q' = q ∧ m' = f m)).
Proof.
  unfold alterMql. simpl. rewrite list_lookup_alter.
  case_decide as Hq.
  - subst q'. destruct (mqls h !! q) as [m|]; simpl; [|done].
    intros [= <-]. eauto.
  - intros Hm. exists m'. split; [done|]. left. split; congruence.
Qed.

(** Removing listeners only ever shrinks the lists. *)
Lemma callUnsubscribe_lookup u h q' m' :
  mqls (callUnsubscribe u h) !! q' = Some m' →
  ∃ m, mqls h !! q' = Some m
     ∧ eventListeners m' ⊆ eventListeners m
     ∧ legacyListeners m' ⊆ legacyListeners m.
Proof.
  unfold callUnsubscribe, removeEventListener, removeListener.
  destruct (modern h); intros Hm;
    apply lookup_alterMql in Hm as (m & Hm & [[_ ->]|[-> ->]]);
    exists m; simpl; repeat split; try done;
    intros x Hx; now apply list_elem_of_filter in Hx.
Qed.

Lemma alter_snoc {A} (f : A → A) (xs : list A) (x : A) :
  alter f (length xs) (xs ++ [x]) = xs ++ [f x].
Proof. induction xs as [|y xs IH]; simpl; [done|]. now f_equal. Qed.

(** A registration appends one media query list holding the one new
    listener, in the slot of the host's API. *)
Lemma addColorSchemeListener_Ok cb h h1 u :
  addColorSchemeListener cb h = Ok (h1, u) →
  u = mkUnsubscribe (length (mqls h)) (mkListener (nextListener h) cb)
  ∧ h1 = mkHost (hasMatchMedia h) (modern h) (prefersDark h)
           (mqls h ++ [freshMql (modern h) (unsub_listener u)])
           (S (nextListener h)) (calls h).
Proof.
  unfold addColorSchemeListener.
  destruct (hasMatchMedia h) eqn:Hmm; [|discriminate].
  simpl. intros [= <- <-]. split; [done|]. simpl.
  unfold addEventListener, addListener, alterMql, setMqls, freshMql. simpl.
  destruct (modern h); simpl; rewrite alter_snoc; simpl; now rewrite Hmm.
Qed.

Lemma addColorSchemeListener_Throw cb h e :
  addColorSchemeListener cb h = Throw e → hasMatchMedia h = false.
Proof.
  unfold addColorSchemeListener. destruct (hasMatchMedia h); [|done].
  simpl. discriminate.
Qed.

Lemma callUnsubscribe_fields u h :
  modern (callUnsubscribe u h) = modern h
  ∧ nextListener (callUnsubscribe u h) = nextListener h
  ∧ calls (callUnsubscribe u h) = calls h
  ∧ length (mqls (callUnsubscribe u h)) = length (mqls h).
Proof.
  unfold callUnsubscribe, removeEventListener, removeListener, alterMql.
  destruct (modern h) eqn:Hmod; simpl; rewrite length_alter; done.
Qed.

(** *** One step of the host *)

Lemma step_modern a h : modern (step h a) = modern h.
Proof.
  destruct a as [dark|cb|u]; simpl; [done| |].
  - destruct (addColorSchemeListener cb h) as [[h1 u]|] eqn:Hreg; [|done].
    apply addColorSchemeListener_Ok in Hreg as [_ ->]. done.
  - apply callUnsubscribe_fields.
Qed.

Lemma step_nextListener a h : nextListener h ≤ nextListener (step h a).
Proof.
  destruct a as [dark|cb|u]; simpl; [done| |].
  - destruct (addColorSchemeListener cb h) as [[h1 u]|] eqn:Hreg; [|done].
    apply addColorSchemeListener_Ok in Hreg as [_ ->]. simpl. lia.
  - destruct (callUnsubscribe_fields u h) as (_ & -> & _). done.
Qed.

Lemma step_length_mqls a h : length (mqls h) ≤ length (mqls (step h a)).
Proof.
  destruct a as [dark|cb|u]; simpl; [done| |].
  - destruct (addColorSchemeListener cb h) as [[h1 u]|] eqn:Hreg; [|done].
    apply addColorSchemeListener_Ok in Hreg as [_ ->]. simpl.
    rewrite length_app. lia.
  - destruct (callUnsubscribe_fields u h) as (_ & _ & _ & ->). done.
Qed.

(** A step keeps what holds of all registered listeners, provided it
    holds of the listener a registration would add. *)
Lemma step_allEntries P a h :
  allEntries P h →
  (∀ cb, a = Subscribe cb → hasMatchMedia h = true →
     P (length (mqls h)) (slot (modern h)) (mkListener (nextListener h) cb)) →
  allEntries P (step h a).
Proof.
  intros HP Hnew. destruct a as [dark|cb|u]; simpl.
  - exact HP.
  - destruct (addColorSchemeListener cb h) as [[h1 u]|] eqn:Hreg; [|done].
    assert (hasMatchMedia h = true) as Hmm.
    { unfold addColorSchemeListener in Hreg.
      now destruct (hasMatchMedia h). }
    apply addColorSchemeListener_Ok in Hreg as [-> ->]. simpl.
    intros q m Hm. apply lookup_app_Some in Hm as [Hm|[Hq Hm]]; [now apply HP|].
    apply list_lookup_singleton_Some in Hm as [Hq0 <-].
    assert (q = length (mqls h)) as -> by lia.
    specialize (Hnew cb eq_refl Hmm). unfold freshMql, slot in *.
    destruct (modern h); simpl; split; intros *; rewrite ?elem_of_nil;
      try done; rewrite list_elem_of_singleton.
    + now intros [= -> ->].
    + now intros ->.
  - intros q m' Hm'.
    apply callUnsubscribe_lookup in Hm' as (m & Hm & Hev & Hleg).
    destruct (HP q m Hm) as [He Hl]. split; eauto.
Qed.

(** The calls a step makes are made by registered listeners. *)
Lemma step_calls (Q : Listener → Prop) a h :
  allEntries (λ _ _ l, Q l) h →
  ∃ new, calls (step h a) = calls h ++ new
       ∧ Forall (λ c, Q (listenerOf c)) new.
Proof.
  intros HQ. destruct a as [dark|cb|u]; simpl.
  - eexists. split; [reflexivity|]. apply Forall_forall. intros c Hc.
    apply list_elem_of_fmap in Hc as (l & -> & Hl).
    apply list_elem_of_bind in Hl as (m & Hl & Hm).
    apply list_elem_of_lookup in Hm as [q Hm].
    destruct (HQ q m Hm) as [He Hleg]. unfold changeListeners in Hl.
    assert (listenerOf (invoke dark l) = l) as -> by now destruct l.
    apply elem_of_app in Hl as [Hl|Hl]; [|now apply Hleg].
    apply list_elem_of_fmap in Hl as ([ty l'] & -> & Hl).
    apply list_elem_of_filter in Hl as [_ Hl]. now apply (He ty).
  - exists []. rewrite app_nil_r. split; [|constructor].
    destruct (addColorSchemeListener cb h) as [[h1 u]|] eqn:Hreg; [|done].
    apply addColorSchemeListener_Ok in Hreg as [_ ->]. done.
  - exists []. rewrite app_nil_r. split; [|constructor].
    apply callUnsubscribe_fields.
Qed.
Lemma step_Subscribe_Ok cb h h1 u :
  addColorSchemeListener cb h = Ok (h1, u) → step h (Subscribe cb) = h1.
Proof. simpl. now intros ->. Qed.

(** *** Runs of the host *)

Lemma run_cons a t h : run (a :: t) h = run t (step h a).
Proof. reflexivity. Qed.

Lemma run_modern t h : modern (run t h) = modern h.
Proof.
  revert h. induction t as [|a t IH]; intros h; [done|].
  now rewrite run_cons, IH, step_modern.
Qed.

Lemma run_nextListener t h : nextListener h ≤ nextListener (run t h).
Proof.
  revert h. induction t as [|a t IH]; intros h; [done|].
  rewrite run_cons. pose proof (step_nextListener a h).
  specialize (IH (step h a)). lia.
Qed.

Lemma run_allEntries P t h :
  allEntries P h →
  (∀ cb q n, Subscribe cb ∈ t → length (mqls h) ≤ q → nextListener h ≤ n →
     P q (slot (modern h)) (mkListener n cb)) →
  allEntries P (run t h).
Proof.
  revert h. induction t as [|a t IH]; intros h HP Hnew; [done|].
  rewrite run_cons. apply IH.
  - apply step_allEntries; [done|]. intros cb -> _.
    apply Hnew; [apply list_elem_of_here|done..].
  - intros cb q n Hcb Hq Hn. rewrite step_modern.
    pose proof (step_length_mqls a h). pose proof (step_nextListener a h).
    apply Hnew; [now apply list_elem_of_further|lia..].
Qed.

Lemma run_calls (Q : Listener → Prop) t h :
  allEntries (λ _ _ l, Q l) h →
  (∀ cb n, Subscribe cb ∈ t → nextListener h ≤ n → Q (mkListener n cb)) →
  ∃ new, calls (run t h) = calls h ++ new
       ∧ Forall (λ c, Q (listenerOf c)) new.
Proof.
  revert h. induction t as [|a t IH]; intros h HQ Hnew.
  - exists []. now rewrite app_nil_r.
  - rewrite run_cons.
    destruct (step_calls Q a h HQ) as (new1 & Hcalls1 & Hnew1).
    destruct (IH (step h a)) as (new2 & Hcalls2 & Hnew2).
    + apply step_allEntries; [done|]. intros cb -> _.
      apply Hnew; [apply list_elem_of_here|done].
    + intros cb n Hcb Hn. pose proof (step_nextListener a h).
      apply Hnew; [now apply list_elem_of_further|lia].
    + exists (new1 ++ new2). rewrite Hcalls2, Hcalls1, app_assoc.
      split; [done|]. now apply Forall_app.
Qed.

Lemma wfHost_run t hasMM isModern dark :
  wfHost (run t (newHost hasMM isModern dark)).
Proof.
  induction t as [|a t IH] using rev_ind; [apply allEntries_newHost|].
  unfold run in *. rewrite foldl_app. simpl.
  set (h := foldl step (newHost hasMM isModern dark) t) in *.
  unfold wfHost in *. apply step_allEntries.
  - eapply allEntries_impl; [|exact IH].
    simpl. intros _ _ l Hl. pose proof (step_nextListener a h). lia.
  - intros cb -> Hmm. simpl. unfold addColorSchemeListener. rewrite Hmm.
    simpl. destruct (modern h); simpl; lia.
Qed.

(** *** A registration and its de-registration *)

Lemma addColorSchemeListener_placed cb h h1 u :
  wfHost h → addColorSchemeListener cb h = Ok (h1, u) → placed u h1.
Proof.
  intros Hwf Hreg. pose proof (addColorSchemeListener_Ok _ _ _ _ Hreg) as [Hu Hh1].
  rewrite <- (step_Subscribe_Ok _ _ _ _ Hreg). unfold placed.
  rewrite step_modern. apply step_allEntries.
  - eapply allEntries_impl; [|exact Hwf].
    simpl. intros q place l Hl Hid. rewrite Hu in Hid. simpl in Hid. lia.
  - intros cb' [= <-] _ _. now rewrite Hu.
Qed.

Lemma placed_run u t h :
  (listener_id (unsub_listener u) < nextListener h) →
  placed u h → placed u (run t h).
Proof.
  intros Hlt Hpl. unfold placed. rewrite run_modern.
  apply run_allEntries; [exact Hpl|].
  intros cb q n _ _ Hn Hid. simpl in Hid. lia.
Qed.

(** Once the returned function has run, the listener is registered
    nowhere. *)
Lemma callUnsubscribe_removes u h :
  placed u h →
  allEntries (λ _ _ l, listener_id l ≠ listener_id (unsub_listener u))
    (callUnsubscribe u h).
Proof.
  intros Hpl q m' Hm'. unfold callUnsubscribe in Hm'. unfold placed, slot in Hpl.
  destruct (modern h) eqn:Hmod;
    [unfold removeEventListener in Hm'|unfold removeListener in Hm'];
    apply lookup_alterMql in Hm' as (m & Hm & [[Hq ->]|[Hq ->]]);
    destruct (Hpl q m Hm) as [He Hl]; simpl; split.
  - intros ty l Hin Hid. now destruct (He ty l Hin Hid).
  - intros l Hin Hid. now destruct (Hl l Hin Hid).
  - intros ty l Hin Hid. apply list_elem_of_filter in Hin as [Hne Hin].
    destruct (He ty l Hin Hid) as (_ & [= ->] & ->). done.
  - intros l Hin Hid. now destruct (Hl l Hin Hid) as (_ & ? & _).
  - intros ty l Hin Hid. now destruct (He ty l Hin Hid).
  - intros l Hin Hid. now destruct (Hl l Hin Hid).
  - intros ty l Hin Hid. now destruct (He ty l Hin Hid) as (_ & ? & _).
  - intros l Hin Hid. apply list_elem_of_filter in Hin as [Hne Hin].
    now destruct (Hl l Hin Hid) as (_ & _ & ->).
Qed.

Lemma allEntries_callUnsubscribe P u h :
  allEntries P h → allEntries P (callUnsubscribe u h).
Proof.
  intros HP. apply (step_allEntries P (CallUnsubscribe u) h HP). discriminate.
Qed.

Lemma allEntries_and (P Q : nat → option jsstring → Listener → Prop) h :
  allEntries P h → allEntries Q h →
  allEntries (λ q place l, P q place l ∧ Q q place l) h.
Proof.
  intros HP HQ q m Hm. destruct (HP q m Hm), (HQ q m Hm). split; eauto.
Qed.

(** While it is registered, the listener does call the callback on a
    change of the color scheme. *)
Lemma registered_listener_called cb h h1 u dark :
  addColorSchemeListener cb h = Ok (h1, u) →
  mkCall (listener_id (unsub_listener u)) cb dark
    ∈ callsSince (length (calls h1)) (schemeChange dark h1).
Proof.
  intros Hreg. apply addColorSchemeListener_Ok in Hreg as [-> ->].
  unfold callsSince, schemeChange. simpl. rewrite drop_app_length.
  apply list_elem_of_fmap. eexists (mkListener (nextListener h) cb).
  split; [reflexivity|]. apply list_elem_of_bind.
  eexists. split; [|apply elem_of_app; right; apply list_elem_of_here].
  unfold freshMql, changeListeners.
  destruct (modern h); simpl; apply list_elem_of_here.
Qed.
End Listeners.

(** C6: take any host, modern or legacy, in any state it can reach, register
    a callback and, after anything else has happened, call the returned
    function.  Whatever happens from then on, the listener of this
    registration makes no call; and if the callback has no other
    registration, the callback is not called at all. *)
Theorem unsubscribe_stops_callback
    (hasMM isModern dark : bool) (t0 t1 t2 : list HostAction)
    (callback : nat) (h1 : Host) (u : Unsubscribe) :
  addColorSchemeListener callback (run t0 (newHost hasMM isModern dark))
    = Ok (h1, u) →
  let h2 := callUnsubscribe u (run t1 h1) in
  let h3 := run t2 h2 in
  (∀ c, c ∈ callsSince (length (calls h2)) h3 →
     call_listener c ≠ listener_id (unsub_listener u))
  ∧ (Subscribe callback ∉ t0 ++ t1 ++ t2 →
     ∀ c, c ∈ callsSince (length (calls h2)) h3 → call_callback c ≠ callback).
Proof.
  intros Hreg h2 h3.
  set (h0 := run t0 (newHost hasMM isModern dark)) in *.
  set (k := listener_id (unsub_listener u)).
  pose proof (addColorSchemeListener_Ok _ _ _ _ Hreg) as [Hu Hh1].
  assert (k = nextListener h0) as Hk by (unfold k; now rewrite Hu).
  assert (nextListener h1 = S (nextListener h0)) as Hnext1 by now rewrite Hh1.
  pose proof (run_nextListener t1 h1) as Hnext1'.
  assert (nextListener h2 = nextListener (run t1 h1)) as Hnext2
    by apply callUnsubscribe_fields.
  assert (placed u (run t1 h1)) as Hplaced.
  { apply placed_run; [fold k; lia|].
    apply (addColorSchemeListener_placed callback h0); [|done].
    apply wfHost_run. }
  pose proof (callUnsubscribe_removes u _ Hplaced) as Hgone. fold h2 k in Hgone.
  split.
  - destruct (run_calls (λ l, listener_id l ≠ k) t2 h2 Hgone)
      as (new & Hcalls & Hnew).
    { intros cb n _ Hn. simpl. lia. }
    intros c Hc. unfold callsSince in Hc. fold h3 in Hcalls.
    rewrite Hcalls, drop_app_length in Hc.
    rewrite Forall_forall in Hnew. exact (Hnew c Hc).
  - intros Hfresh.
    assert (∀ t, t ⊆ t0 ++ t1 ++ t2 → Subscribe callback ∉ t) as Hsub
      by (intros t Ht Hin; apply Hfresh, Ht, Hin).
    assert (allEntries (λ _ _ l, listener_callback l ≠ callback) h0) as H0.
    { apply run_allEntries; [apply allEntries_newHost|].
      intros cb q n Hcb _ _. simpl. intros ->. revert Hcb. apply Hsub.
      intros x Hx. apply elem_of_app. now left. }
    assert (allEntries (λ _ _ l, listener_callback l = callback →
                                 listener_id l = k) (run t1 h1)) as H1.
    { apply run_allEntries.
      - rewrite <- (step_Subscribe_Ok _ _ _ _ Hreg). apply step_allEntries.
        + eapply allEntries_impl; [|exact H0]. simpl. intros _ _ l Hl Hcb. done.
        + intros cb [= <-] _ _. simpl. lia.
      - intros cb q n Hcb _ _. simpl. intros ->. exfalso. revert Hcb.
        apply Hsub. intros x Hx. apply elem_of_app. right.
        apply elem_of_app. now left. }
    assert (allEntries (λ _ _ l, listener_callback l ≠ callback) h2) as H2.
    { apply (allEntries_callUnsubscribe _ u) in H1. fold h2 in H1.
      pose proof (allEntries_and _ _ _ H1 Hgone) as Hboth.
      eapply allEntries_impl; [|exact Hboth]. simpl.
      intros _ _ l [Himp Hne] Hcb. now apply Hne, Himp. }
    destruct (run_calls (λ l, listener_callback l ≠ callback) t2 h2 H2)
      as (new & Hcalls & Hnew).
    { intros cb n Hcb _. simpl. intros ->. revert Hcb. apply Hsub.
      intros x Hx. apply elem_of_app. right. apply elem_of_app. now right. }
    intros c Hc. unfold callsSince in Hc. fold h3 in Hcalls.
    rewrite Hcalls, drop_app_length in Hc.
    rewrite Forall_forall in Hnew. exact (Hnew c Hc).
Qed.

(** On a modern and on a legacy host: the callback is called for the change
    that happens while it is registered, and for none of the two changes
    that follow the de-registration. *)
Lemma unsubscribe_stops_callback_witness :
  (∃ h1 u,
     addColorSchemeListener 7%nat (newHost true true false) = Ok (h1, u)
     ∧ let h2 := callUnsubscribe u (run [SchemeChange true] h1) in
       let h3 := run [SchemeChange false; SchemeChange true] h2 in
       calls h2 = [mkCall 0 7 true]
       ∧ ∀ c, c ∈ callsSince (length (calls h2)) h3 → call_callback c ≠ 7%nat)
  ∧ (∃ h1 u,
     addColorSchemeListener 7%nat (newHost true false false) = Ok (h1, u)
     ∧ let h2 := callUnsubscribe u (run [SchemeChange true] h1) in
       let h3 := run [SchemeChange false; SchemeChange true] h2 in
       calls h2 = [mkCall 0 7 true]
       ∧ ∀ c, c ∈ callsSince (length (calls h2)) h3 → call_callback c ≠ 7%nat).
Proof.
  split; eexists _, _; (split; [reflexivity|]); (split; [reflexivity|]).
  - apply (unsubscribe_stops_callback true true false []
             [SchemeChange true] [SchemeChange false; SchemeChange true]
             7%nat _ _ eq_refl).
    simpl. intros Hin.
    repeat (apply elem_of_cons in Hin as [Hin|Hin]; [discriminate Hin|]).
    now apply elem_of_nil in Hin.
  - apply (unsubscribe_stops_callback true false false []
             [SchemeChange true] [SchemeChange false; SchemeChange true]
             7%nat _ _ eq_refl).
    simpl. intros Hin.
    repeat (apply elem_of_cons in Hin as [Hin|Hin]; [discriminate Hin|]).
    now apply elem_of_nil in Hin.
Defined.

(** C6, as worded: a callback registered twice is still called after the
    de-registration function of its first registration has been called,
    by the listener of the second registration. *)
Lemma callback_called_after_unsubscribe :
  ∃ h1 u,
    addColorSchemeListener 7%nat (newHost true true false) = Ok (h1, u)
    ∧ ∃ c,
        c ∈ callsSince
              (length (calls (callUnsubscribe u (run [Subscribe 7%nat] h1))))
              (run [SchemeChange true]
                 (callUnsubscribe u (run [Subscribe 7%nat] h1)))
        ∧ call_callback c = 7%nat.
Proof.
  eexists _, _. split; [reflexivity|].
  exists (mkCall 1 7 true). split; [|reflexivity].
  vm_compute. apply list_elem_of_here.
Qed.

(** * Further properties of the theme utility module *)

(** ** cssVar and colorWithOpacity *)

(** X1: the reference [cssVar] builds names exactly the custom property
    that [setCssVar] writes and [getCssVar] reads, and different names give
    different references. *)
Theorem cssVar_reference (name : jsstring) :
  cssVar name = lit "var(" ++ customProperty name ++ lit ")"
  ∧ ∀ name', cssVar name = cssVar name' → name = name'.
Proof.
  split; [reflexivity|]. unfold cssVar. intros name' Heq.
  apply app_inv_head in Heq. now apply app_inv_tail in Heq.
Qed.

Lemma cssVar_reference_witness :
  cssVar (lit "x") = lit "var(--x)"
  ∧ lit "color-primary-500" = lit "color-primary-500".
Proof.
  split.
  - exact (proj1 (cssVar_reference (lit "x"))).
  - apply (proj2 (cssVar_reference (lit "color-primary-500"))). reflexivity.
Defined.

Section ColorWithOpacityFacts.
Context {number : Type} (numberText : number → jsstring).

(** X2: [colorWithOpacity] wraps the [cssVar] reference to the variable
    named [colorVar] followed by '-rgb' and prints the opacity as it is,
    without clamping; for one opacity, different color variables give
    different colors. *)
Theorem colorWithOpacity_reference (colorVar : jsstring) (opacity : number) :
  colorWithOpacity number numberText colorVar opacity
    = lit "rgba(" ++ cssVar (colorVar ++ lit "-rgb") ++ lit ", "
        ++ numberText opacity ++ lit ")"
  ∧ ∀ colorVar',
      colorWithOpacity number numberText colorVar opacity
        = colorWithOpacity number numberText colorVar' opacity →
      colorVar = colorVar'.
Proof.
  unfold colorWithOpacity, cssVar. split.
  - simpl. now rewrite <- !app_assoc.
  - intros colorVar' Heq. apply app_inv_head in Heq.
    now apply app_inv_tail in Heq.
Qed.
End ColorWithOpacityFacts.

Lemma colorWithOpacity_reference_witness :
  colorWithOpacity Z numberToString (lit "c") 2 = lit "rgba(var(--c-rgb), 2)"
  ∧ lit "c" = lit "c".
Proof.
  split.
  - exact (proj1 (colorWithOpacity_reference numberToString (lit "c") 2)).
  - apply (proj2 (colorWithOpacity_reference numberToString (lit "c") 2)).
    reflexivity.
Defined.

(** ** The style store *)

(** X3: what [getCssVar] returns never starts or ends with white space,
    whatever was stored. *)
Theorem getCssVar_trimmed (st : styleStore) (name : jsstring) :
  tightStart (getCssVar st name) ∧ tightEnd (getCssVar st name)
  ∧ trim (getCssVar st name) = getCssVar st name.
Proof.
  unfold getCssVar.
  destruct (trim_split (getPropertyValue st (customProperty name)))
    as (_ & _ & _ & _ & _ & Hs & He).
  repeat split; [done..|]. apply trim_idemp.
Qed.

(** ** Registration and de-registration of listeners *)

Section ListenerFacts.
Local Open Scope nat_scope.
Implicit Types (h : Host) (u : Unsubscribe) (l : Listener) (m : MediaQueryList).

Lemma changeListeners_freshMql isModern l :
  changeListeners (freshMql isModern l) = [l].
Proof. now destruct isModern. Qed.

Lemma schemeChange_calls dark h :
  calls (schemeChange dark h) = calls h ++ changeCalls dark h.
Proof. reflexivity. Qed.

Lemma listenerOf_invoke dark l : listenerOf (invoke dark l) = l.
Proof. now destruct l. Qed.

Lemma changeCalls_registered cb h h1 u dark :
  addColorSchemeListener cb h = Ok (h1, u) →
  changeCalls dark h1
    = changeCalls dark h ++ [mkCall (listener_id (unsub_listener u)) cb dark].
Proof.
  intros Hreg. apply addColorSchemeListener_Ok in Hreg as [-> ->].
  unfold changeCalls. simpl. rewrite bind_app, fmap_app. f_equal.
  simpl. now rewrite changeListeners_freshMql, app_nil_r.
Qed.

(** X7: unlike [systemPrefersDarkMode], [addColorSchemeListener] calls
    [window.matchMedia] unguarded: without the facility it throws a
    TypeError (and nothing is registered); with it the registration
    succeeds, and it makes no call and leaves the scheme as it is. *)
Theorem addColorSchemeListener_outcome (callback : nat) (h : Host) :
  (hasMatchMedia h = false →
     addColorSchemeListener callback h = Throw TypeError
     ∧ step h (Subscribe callback) = h)
  ∧ (hasMatchMedia h = true →
     ∃ h1 u, addColorSchemeListener callback h = Ok (h1, u)
           ∧ calls h1 = calls h
           ∧ systemPrefersDarkMode h1 = systemPrefersDarkMode h).
Proof.
  split; intros Hmm.
  - unfold step, addColorSchemeListener. now rewrite Hmm.
  - destruct (addColorSchemeListener callback h) as [[h1 u]|e] eqn:Hreg.
    + exists h1, u. split; [done|].
      apply addColorSchemeListener_Ok in Hreg as [_ ->]. done.
    + apply addColorSchemeListener_Throw in Hreg. congruence.
Qed.

Lemma addColorSchemeListener_outcome_witness :
  (addColorSchemeListener 3 (newHost false true false) = Throw TypeError
   ∧ step (newHost false true false) (Subscribe 3) = newHost false true false)
  ∧ ∃ h1 u, addColorSchemeListener 3 (newHost true true false) = Ok (h1, u)
          ∧ calls h1 = []
          ∧ systemPrefersDarkMode h1 = JSBool false.
Proof.
  split.
  - apply (proj1 (addColorSchemeListener_outcome 3 (newHost false true false))).
    reflexivity.
  - apply (proj2 (addColorSchemeListener_outcome 3 (newHost true true false))).
    reflexivity.
Defined.

(** X8: a registration adds exactly one call to every later change of the
    scheme: the new listener is run once, after the listeners that were
    there before, with the callback it was registered for and the new
    scheme as argument. *)
Theorem registration_adds_one_call
    (callback : nat) (h h1 : Host) (u : Unsubscribe) (dark : bool) :
  addColorSchemeListener callback h = Ok (h1, u) →
  listener_callback (unsub_listener u) = callback
  ∧ calls (schemeChange dark h1)
    = calls h ++ changeCalls dark h
        ++ [mkCall (listener_id (unsub_listener u)) callback dark].
Proof.
  intros Hreg. rewrite schemeChange_calls.
  rewrite (changeCalls_registered _ _ _ _ dark Hreg).
  apply addColorSchemeListener_Ok in Hreg as [-> ->]. done.
Qed.

Lemma registration_adds_one_call_witness :
  ∃ h1 u,
    addColorSchemeListener 7 (newHost true false false) = Ok (h1, u)
    ∧ listener_callback (unsub_listener u) = 7
    ∧ calls (schemeChange true h1) = [mkCall 0 7 true].
Proof.
  eexists _, _. split; [reflexivity|].
  apply (registration_adds_one_call 7 (newHost true false false) _ _ true eq_refl).
Defined.

(** X11: registering the same callback twice is not deduplicated: it is
    then called twice per change, by two different listeners, and calling
    the first registration's de-registration function leaves the second
    one in place. *)
Theorem double_registration
    (callback : nat) (h h1 h2 : Host) (u1 u2 : Unsubscribe) (dark : bool) :
  addColorSchemeListener callback h = Ok (h1, u1) →
  addColorSchemeListener callback h1 = Ok (h2, u2) →
  listener_id (unsub_listener u1) ≠ listener_id (unsub_listener u2)
  ∧ changeCalls dark h2
    = changeCalls dark h
        ++ [ mkCall (listener_id (unsub_listener u1)) callback dark;
             mkCall (listener_id (unsub_listener u2)) callback dark ]
  ∧ mkCall (listener_id (unsub_listener u2)) callback dark
      ∈ changeCalls dark (callUnsubscribe u1 h2).
Proof.
  intros Hreg1 Hreg2.
  rewrite (changeCalls_registered _ _ _ _ dark Hreg2).
  rewrite (changeCalls_registered _ _ _ _ dark Hreg1).
  apply addColorSchemeListener_Ok in Hreg1 as [Hu1 Hh1].
  apply addColorSchemeListener_Ok in Hreg2 as [Hu2 Hh2].
  assert (nextListener h1 = S (nextListener h)) as Hnext by now rewrite Hh1.
  assert (length (mqls h1) = S (length (mqls h))) as Hlen.
  { rewrite Hh1. simpl. rewrite length_app. simpl. lia. }
  split; [rewrite Hu1, Hu2; simpl; lia|].
  split; [now rewrite <- app_assoc|].
  unfold changeCalls. apply list_elem_of_fmap.
  exists (unsub_listener u2). split; [rewrite Hu2; reflexivity|].
  apply list_elem_of_bind. exists (freshMql (modern h1) (unsub_listener u2)).
  split; [rewrite changeListeners_freshMql; apply list_elem_of_here|].
  apply list_elem_of_lookup. exists (length (mqls h1)).
  assert (unsub_mediaQuery u1 ≠ length (mqls h1)) as Hq
    by (rewrite Hu1; simpl; lia).
  assert (mqls h2 !! length (mqls h1)
          = Some (freshMql (modern h1) (unsub_listener u2))) as Hm.
  { rewrite Hh2. simpl. now apply list_lookup_middle. }
  unfold callUnsubscribe, removeEventListener, removeListener, alterMql.
  destruct (modern h2); simpl; now rewrite list_lookup_alter_ne.
Qed.

Lemma double_registration_witness :
  ∃ h1 u1 h2 u2,
    addColorSchemeListener 7 (newHost true true false) = Ok (h1, u1)
    ∧ addColorSchemeListener 7 h1 = Ok (h2, u2)
    ∧ changeCalls true h2 = [mkCall 0 7 true; mkCall 1 7 true]
    ∧ mkCall 1 7 true ∈ changeCalls true (callUnsubscribe u1 h2).
Proof.
  eexists _, _, _, _. split; [reflexivity|]. split; [reflexivity|].
  apply (double_registration 7 (newHost true true false) _ _ _ _ true
           eq_refl eq_refl).
Defined.

Lemma filter_idemp {A} (P : A → Prop) `{∀ x, Decision (P x)} (xs : list A) :
  filter P (filter P xs) = filter P xs.
Proof.
  induction xs as [|x xs IH]; [done|].
  rewrite filter_cons. destruct (decide (P x)) as [HP|HP]; [|done].
  rewrite filter_cons, decide_True by done. now f_equal.
Qed.

Lemma alterMql_idemp (f : MediaQueryList → MediaQueryList) q h :
  (∀ m, f (f m) = f m) → alterMql f q (alterMql f q h) = alterMql f q h.
Proof.
  intros Hf. unfold alterMql, setMqls. simpl. f_equal.
  rewrite list_alter_alter_eq. apply list_alter_ext; [|done].
  intros m _. apply Hf.
Qed.

(** X9: calling a de-registration function a second time changes
    nothing. *)
Theorem callUnsubscribe_idempotent (u : Unsubscribe) (h : Host) :
  callUnsubscribe u (callUnsubscribe u h) = callUnsubscribe u h.
Proof.
  unfold callUnsubscribe at 1.
  destruct (callUnsubscribe_fields u h) as (-> & _).
  unfold callUnsubscribe, removeEventListener, removeListener.
  destruct (modern h); apply alterMql_idemp; intros m; simpl;
    now rewrite filter_idemp.
Qed.

(** X10: a de-registration adds no call to a change of the scheme, and it
    takes away none but those of its own listener. *)
Theorem callUnsubscribe_others (u : Unsubscribe) (h : Host) (dark : bool) :
  (∀ c, c ∈ changeCalls dark (callUnsubscribe u h) → c ∈ changeCalls dark h)
  ∧ (∀ c, c ∈ changeCalls dark h → listenerOf c ≠ unsub_listener u →
       c ∈ changeCalls dark (callUnsubscribe u h)).
Proof.
  unfold changeCalls. split.
  - intros c Hc. apply list_elem_of_fmap in Hc as (l & -> & Hl).
    apply list_elem_of_fmap_2. apply list_elem_of_bind in Hl as (m' & Hl & Hm').
    apply list_elem_of_lookup in Hm' as [q Hm'].
    apply callUnsubscribe_lookup in Hm' as (m & Hm & Hev & Hleg).
    apply list_elem_of_bind. exists m.
    split; [|now apply list_elem_of_lookup_2 in Hm].
    unfold changeListeners in *. apply elem_of_app in Hl as [Hl|Hl];
      apply elem_of_app; [left|right; now apply Hleg].
    apply list_elem_of_fmap in Hl as ([ty l'] & -> & Hl).
    apply list_elem_of_filter in Hl as [Hty Hl].
    apply list_elem_of_fmap. exists (ty, l'). split; [done|].
    apply list_elem_of_filter. split; [done|now apply Hev].
  - intros c Hc Hne. apply list_elem_of_fmap in Hc as (l & -> & Hl).
    rewrite listenerOf_invoke in Hne.
    apply list_elem_of_fmap_2. apply list_elem_of_bind in Hl as (m & Hl & Hm).
    apply list_elem_of_lookup in Hm as [q Hm].
    apply list_elem_of_bind.
    set (fe := λ m : MediaQueryList,
           mkMQL (filter (λ tl, tl ≠ (lit "change", unsub_listener u))
                    (eventListeners m)) (legacyListeners m)).
    set (fl := λ m : MediaQueryList,
           mkMQL (eventListeners m)
             (filter (λ l', l' ≠ unsub_listener u) (legacyListeners m))).
    assert (l ∈ changeListeners (fe m) ∧ l ∈ changeListeners (fl m)) as [Hfe Hfl].
    { unfold changeListeners in *. simpl.
      apply elem_of_app in Hl as [Hl|Hl].
      - apply list_elem_of_fmap in Hl as ([ty l'] & -> & Hl).
        apply list_elem_of_filter in Hl as [Hty Hl]. simpl in Hne.
        split; apply elem_of_app; left; apply list_elem_of_fmap;
          exists (ty, l'); (split; [done|]); apply list_elem_of_filter;
          (split; [done|]); [|done].
        apply list_elem_of_filter. split; [congruence|done].
      - split; apply elem_of_app; right; [done|].
        apply list_elem_of_filter. split; done. }
    unfold callUnsubscribe, removeEventListener, removeListener, alterMql.
    fold fe fl.
    destruct (decide (unsub_mediaQuery u = q)) as [->|Hq].
    + destruct (modern h); simpl;
        [exists (fe m)|exists (fl m)]; (split; [done|]);
        apply (list_elem_of_lookup_2 _ q); simpl;
        rewrite list_lookup_alter_eq, Hm; done.
    + exists m. split; [done|].
      destruct (modern h); simpl; apply (list_elem_of_lookup_2 _ q); simpl;
        now rewrite list_lookup_alter_ne.
Qed.

Lemma callUnsubscribe_others_witness :
  ∃ h1 u1 h2 u2,
    addColorSchemeListener 7 (newHost true false false) = Ok (h1, u1)
    ∧ addColorSchemeListener 8 h1 = Ok (h2, u2)
    ∧ changeCalls true (callUnsubscribe u1 h2) = [mkCall 1 8 true]
    ∧ mkCall 1 8 true ∈ changeCalls true (callUnsubscribe u1 h2).
Proof.
  eexists _, _, _, _. split; [reflexivity|]. split; [reflexivity|].
  split; [reflexivity|].
  apply (proj2 (callUnsubscribe_others _ _ true)).
  - vm_compute. apply list_elem_of_further, list_elem_of_here.
  - vm_compute. discriminate.
Defined.
End ListenerFacts.

(** * Further properties of CoursePlayer *)

(** ** Selecting a lesson *)

(** The members of the catalog, one by one. *)
Lemma catalog_members k arr r :
  courseLessons !! k = Some arr → r ∈ arr →
  (k = lit "web-dev-101" ∧ arr = [0; 1; 2]%nat ∧ (r = 0 ∨ r = 1 ∨ r = 2)%nat)
  ∨ (k = lit "javascript-basics" ∧ arr = [3; 4]%nat ∧ (r = 3 ∨ r = 4)%nat).
Proof.
  intros Hk Hr.
  destruct (courseLessons_lookup k arr Hk) as [[-> ->]|[-> ->]]; [left|right];
    (split; [done|]); (split; [done|]);
    repeat (apply elem_of_cons in Hr as [->|Hr]; [tauto|]);
    now apply elem_of_nil in Hr.
Qed.

(** Within a course no two lessons have the same id: looking up a
    lesson's own id finds that lesson. *)
Lemma catalog_find_own k arr r lesson :
  courseLessons !! k = Some arr → r ∈ arr → catalogHeap !! r = Some lesson →
  find (hasId catalogHeap (lesson_id lesson)) arr = Some r
  ∧ lesson_id lesson ≠ [].
Proof.
  intros Hk Hr Hl.
  destruct (catalog_members k arr r Hk Hr)
    as [(_ & -> & [-> | [-> | ->]]) | (_ & -> & [-> | ->])];
    injection Hl as <-; split; (reflexivity || discriminate).
Qed.

(** X14: every lesson of a catalog course is selected by its own id, as a
    link of the sidebar passes it, also after any number of toggles have
    added copies to the store: the copies never get in the way. *)
Theorem lesson_selected_by_own_id
    (h : heap) (k : jsstring) (arr : list loc) (r : loc) (lesson : Lesson) :
  catalogHeap `prefix_of` h →
  courseLessons !! k = Some arr → r ∈ arr → h !! r = Some lesson →
  ∃ st, mount h (mkParams (Some k) (Some (lesson_id lesson))) = Ok st
      ∧ activeLesson st = Some r
      ∧ view h (mkParams (Some k) (Some (lesson_id lesson))) = Ok (Player r).
Proof.
  intros Hpre Hk Hr Hl.
  rewrite (extends_lookup h r Hpre (catalog_loc_valid k arr r Hk Hr)) in Hl.
  destruct (catalog_find_own k arr r lesson Hk Hr Hl) as [Hfind Hid].
  assert (mount h (mkParams (Some k) (Some (lesson_id lesson)))
          = Ok (setActiveLesson (Some r) initialState)) as Hmount.
  { unfold mount, useEffect. rewrite (initialLesson_extends h _ Hpre).
    rewrite (initialLesson_supplied _ k arr _ Hk Hid), Hfind. reflexivity. }
  eexists. split; [exact Hmount|]. split; [reflexivity|].
  unfold view. rewrite Hmount. simpl. unfold render. simpl.
  fold (truthyParam (Some k)).
  rewrite (courseLessons_key_nonempty k arr Hk).
  now rewrite (courseLessons_get_own k arr Hk).
Qed.

Lemma lesson_selected_by_own_id_witness :
  ∃ st, mount catalogHeap
          (mkParams (Some (lit "javascript-basics")) (Some (lit "js-lesson-2")))
        = Ok st
      ∧ activeLesson st = Some 4%nat
      ∧ view catalogHeap
          (mkParams (Some (lit "javascript-basics")) (Some (lit "js-lesson-2")))
        = Ok (Player 4).
Proof.
  destruct (catalogHeap !! 4%nat) as [lesson|] eqn:Hl; [|discriminate Hl].
  pose proof (lesson_selected_by_own_id catalogHeap (lit "javascript-basics")
                [3; 4]%nat 4%nat lesson (reflexivity _) eq_refl
                (list_elem_of_further _ _ _ (list_elem_of_here _ _)) Hl) as H.
  injection Hl as <-. exact H.
Defined.

(** ** The outcomes of a route *)

Lemma courseLessons_get_inherited c :
  courseLessons_get c = CatInherited ↔
  ∃ k, c = Some k ∧ k ∈ objectPrototypeKeys.
Proof.
  unfold courseLessons_get. split.
  - destruct (courseLessons !! propertyKey c) eqn:Hown; [discriminate|].
    case_bool_decide as Hin; [|discriminate]. intros _.
    destruct c as [k|]; [eauto|]. exfalso. simpl in Hin. vm_compute in Hin.
    repeat (apply elem_of_cons in Hin as [Hin|Hin]; [discriminate Hin|]).
    now apply elem_of_nil in Hin.
  - intros (k & -> & Hin). simpl.
    rewrite (courseLessons_not_inherited k Hin).
    now rewrite bool_decide_eq_true_2.
Qed.

Lemma truthyParam_true p : truthyParam p = true ↔ ∃ s, p = Some s ∧ s ≠ [].
Proof.
  destruct p as [s|]; simpl.
  - unfold truthyParam. simpl. rewrite negb_true_iff, bool_decide_eq_false.
    split; [eauto|]. now intros (? & [= <-] & ?).
  - split; [discriminate|]. now intros (? & ? & _).
Qed.

(** X15: resolving a route throws in one case only: the course parameter
    names a member of [Object.prototype] and a lesson id is supplied.
    Every other route gives a view. *)
Theorem view_throws_iff (h : heap) (p : Params) :
  view h p = Throw TypeError ↔
  (∃ k, courseId p = Some k ∧ k ∈ objectPrototypeKeys)
  ∧ (∃ lid, lessonId p = Some lid ∧ lid ≠ []).
Proof.
  rewrite <- courseLessons_get_inherited, <- truthyParam_true.
  unfold view, mount, useEffect, initialLesson, lessonsOf, findLesson,
    truthyParam.
  destruct (lessonId p) as [lid|]; simpl;
    [destruct (negb (bool_decide (lid = [])))|];
    destruct (courseLessons_get (courseId p)); simpl; split;
    try discriminate; try tauto; try (intros [? ?]; discriminate).
Qed.

(** X16: when mounting at a route shows the player, it shows it for a
    lesson of the requested course, and, when a lesson id was supplied,
    for a lesson with that id. *)
Theorem view_player_sound (h : heap) (p : Params) (r : loc) :
  view h p = Ok (Player r) →
  ∃ k arr, courseId p = Some k ∧ courseLessons !! k = Some arr ∧ r ∈ arr
    ∧ ∀ lid, lessonId p = Some lid → lid ≠ [] → lessonAt h lid r.
Proof.
  unfold view, mount, useEffect. intros Hview.
  destruct (initialLesson h p) as [[r'|]|] eqn:Hinit; simpl in Hview;
    try discriminate; unfold render in Hview; simpl in Hview;
    destruct (negb (truthyParam (courseId p))
              || match courseLessons_get (courseId p) with
                 | CatUndefined => true
                 | _ => false
                 end) eqn:Hguard; try discriminate.
  injection Hview as ->.
  apply orb_false_iff in Hguard as [Hc Hget]. apply negb_false_iff in Hc.
  apply truthyParam_true in Hc as (k & Hk & _). exists k.
  unfold initialLesson, lessonsOf, courseLessons_get in Hinit.
  unfold courseLessons_get in Hget. rewrite Hk in *. simpl in *.
  destruct (courseLessons !! k) as [arr|] eqn:Harr.
  - exists arr. split; [done|]. split; [done|].
    destruct (lessonId p) as [lid|] eqn:Hlid.
    + simpl in Hinit. destruct (negb (bool_decide (lid = []))) eqn:Hne.
      * simpl in Hinit. injection Hinit as Hfind.
        pose proof (find_firstWithId h lid arr) as Hfirst.
        rewrite Hfind in Hfirst. destruct Hfirst as (i & Hi & Hat & _).
        split; [now apply list_elem_of_lookup_2 in Hi|].
        now intros ? [= <-] _.
      * simpl in Hinit. injection Hinit as Hhead.
        split; [now apply list_elem_of_lookup_2 in Hhead|].
        intros ? [= <-] Hnil. apply negb_false_iff, bool_decide_eq_true in Hne.
        done.
    + simpl in Hinit. injection Hinit as Hhead.
      split; [now apply list_elem_of_lookup_2 in Hhead|]. discriminate.
  - case_bool_decide; [|discriminate].
    destruct (lessonId p) as [lid|]; simpl in Hinit;
      [destruct (negb (bool_decide (lid = [])))|]; simpl in Hinit;
      discriminate.
Qed.

Lemma view_player_sound_witness :
  ∃ k arr, courseId (mkParams (Some (lit "web-dev-101")) (Some (lit "lesson-3")))
           = Some k
    ∧ courseLessons !! k = Some arr ∧ 2%nat ∈ arr
    ∧ ∀ lid, Some (lit "lesson-3") = Some lid → lid ≠ [] →
        lessonAt catalogHeap lid 2.
Proof.
  apply (view_player_sound catalogHeap
           (mkParams (Some (lit "web-dev-101")) (Some (lit "lesson-3"))) 2).
  reflexivity.
Defined.

(** ** The sidebar *)

Lemma omap_ext_in {A B} (f g : A → option B) (xs : list A) :
  (∀ x, x ∈ xs → f x = g x) → omap f xs = omap g xs.
Proof.
  induction xs as [|x xs IH]; intros Hfg; [done|]. csimpl.
  rewrite (Hfg x) by apply list_elem_of_here.
  rewrite IH; [done|]. intros y Hy. apply Hfg. now right.
Qed.

(** The array the sidebar maps over holds locations of the catalog. *)
Lemma lessonsOf_loc_valid c arr r :
  lessonsOf c = CatLessons arr → r ∈ arr → (r < length catalogHeap)%nat.
Proof.
  intros Hl Hr. destruct (lessonsOf_array c arr Hl) as [->|[k Hk]].
  - now apply elem_of_nil in Hr.
  - now apply (catalog_loc_valid k arr).
Qed.

(** The sidebar depends on the store through the catalog's objects and on
    the held lesson through its id only. *)
Lemma sidebar_ext (h h' : heap) (p : Params) (st st' : State) :
  catalogHeap `prefix_of` h → catalogHeap `prefix_of` h' →
  lesson_id <$> currentLesson h st = lesson_id <$> currentLesson h' st' →
  sidebar h p st = sidebar h' p st'.
Proof.
  intros Hpre Hpre' Hid. unfold sidebar.
  destruct (lessonsOf (courseId p)) as [|arr|] eqn:Hl; try done.
  f_equal. apply omap_ext_in. intros r Hr.
  pose proof (lessonsOf_loc_valid _ _ _ Hl Hr) as Hlt.
  rewrite (extends_lookup h r Hpre Hlt), (extends_lookup h' r Hpre' Hlt).
  destruct (catalogHeap !! r) as [lesson|]; [|done]. simpl. f_equal.
  unfold sidebarEntry. f_equal.
  destruct (currentLesson h st) as [a|], (currentLesson h' st') as [a'|];
    simpl in Hid; try discriminate; [|done].
  injection Hid as ->. done.
Qed.

(** X17: a toggle changes the label of the completion button, but the
    sidebar is rendered from the catalog's objects: its check marks, and
    everything else in it, stay as they were. *)
Theorem toggle_leaves_sidebar
    (h h' : heap) (st st' : State) (lesson : Lesson) (p : Params) :
  catalogHeap `prefix_of` h →
  currentLesson h st = Some lesson →
  handleLessonComplete h st = Ok (h', st') →
  (∃ lesson', currentLesson h' st' = Some lesson'
      ∧ completeButtonLabel lesson' ≠ completeButtonLabel lesson)
  ∧ sidebar h' p st' = sidebar h p st.
Proof.
  intros Hpre Hcur Htoggle.
  rewrite (handleLessonComplete_Ok h st lesson Hcur) in Htoggle.
  injection Htoggle as <- <-.
  pose proof (currentLesson_new h st (toggled lesson)) as Hnew. split.
  - exists (toggled lesson). split; [done|].
    unfold completeButtonLabel, toggled. simpl.
    destruct (lesson_isCompleted lesson); discriminate.
  - apply sidebar_ext; [now apply prefix_app_r|done|].
    now rewrite Hnew, Hcur.
Qed.

Lemma toggle_leaves_sidebar_witness :
  ∃ h' st',
    handleLessonComplete catalogHeap (setActiveLesson (Some 1%nat) initialState)
      = Ok (h', st')
    ∧ (∃ lesson', currentLesson h' st' = Some lesson'
         ∧ completeButtonLabel lesson' ≠ lit "Mark as Complete")
    ∧ sidebar h' (mkParams (Some (lit "web-dev-101")) None) st'
      = sidebar catalogHeap (mkParams (Some (lit "web-dev-101")) None)
          (setActiveLesson (Some 1%nat) initialState).
Proof.
  eexists _, _. split; [reflexivity|].
  exact (toggle_leaves_sidebar catalogHeap _
           (setActiveLesson (Some 1%nat) initialState) _ _
           (mkParams (Some (lit "web-dev-101")) None)
           (reflexivity _) eq_refl eq_refl).
Defined.

(** X18: in the sidebar of a course exactly one link is highlighted, the
    one of the lesson the view holds, whether the view holds the catalog's
    object or a toggled copy of it. *)
Theorem sidebar_highlights_held_lesson
    (h : heap) (k : jsstring) (arr : list loc) (lessonParam : option jsstring)
    (st : State) (r : loc) (lesson active : Lesson) :
  catalogHeap `prefix_of` h →
  courseLessons !! k = Some arr → r ∈ arr → h !! r = Some lesson →
  currentLesson h st = Some active → lesson_id active = lesson_id lesson →
  ∃ entries,
    sidebar h (mkParams (Some k) lessonParam) st = Ok entries
    ∧ entry_highlighted <$> entries = (λ r', bool_decide (r' = r)) <$> arr.
Proof.
  intros Hpre Hk Hr Hl Hcur Hid.
  rewrite (extends_lookup h r Hpre (catalog_loc_valid k arr r Hk Hr)) in Hl.
  rewrite (sidebar_ext h catalogHeap _ st
             (setActiveLesson (Some r) initialState) Hpre (reflexivity _)).
  - destruct (catalog_members k arr r Hk Hr)
      as [(-> & -> & [-> | [-> | ->]]) | (-> & -> & [-> | ->])];
      eexists; split; reflexivity.
  - rewrite Hcur. unfold currentLesson. simpl. rewrite Hl. simpl. congruence.
Qed.

Lemma sidebar_highlights_held_lesson_witness :
  ∃ entries,
    sidebar catalogHeap
      (mkParams (Some (lit "web-dev-101")) (Some (lit "lesson-2")))
      (setActiveLesson (Some 1%nat) initialState) = Ok entries
    ∧ entry_highlighted <$> entries = [false; true; false].
Proof.
  destruct (catalogHeap !! 1%nat) as [lesson|] eqn:Hl; [|discriminate Hl].
  exact (sidebar_highlights_held_lesson catalogHeap (lit "web-dev-101")
           [0; 1; 2]%nat (Some (lit "lesson-2"))
           (setActiveLesson (Some 1%nat) initialState) 1%nat lesson lesson
           (reflexivity _) eq_refl
           (list_elem_of_further _ _ _ (list_elem_of_here _ _)) Hl Hl eq_refl).
Defined.

(** ** Sequences of events *)

Section EventFacts.
Variable toISOString : Z → jsstring.
Implicit Types (w : World) (e : UIEvent) (t : list UIEvent) (st : State).

Lemma handlePostComment_cases now date st :
  (trim (newComment st) ≠ []
   ∧ handlePostComment toISOString now date st
     = mkState (activeLesson st) (activeTab st) (notes st)
         (comments st ++ [commentOf toISOString (newComment st) now date]) [])
  ∨ (trim (newComment st) = []
     ∧ handlePostComment toISOString now date st = st).
Proof.
  destruct (decide (trim (newComment st) = [])) as [He|Hne].
  - right. split; [done|]. apply handlePostComment_reject.
    now apply trim_nil_iff.
  - left. split; [done|]. now apply handlePostComment_accept.
Qed.

Lemma commentOf_wellFormed text now date :
  trim text ≠ [] → wellFormedComment (commentOf toISOString text now date).
Proof.
  intros Hne. destruct (trim_split text) as (_ & _ & _ & _ & _ & Hs & He).
  repeat split; done.
Qed.

Lemma useEffect_fields h p st st' :
  useEffect h p st = Ok st' →
  Ok (activeLesson st') = initialLesson h p
  ∧ activeTab st' = activeTab st ∧ notes st' = notes st
  ∧ comments st' = comments st ∧ newComment st' = newComment st.
Proof.
  unfold useEffect. destruct (initialLesson h p) as [l|]; simpl; [|done].
  intros [= <-]. repeat split.
Qed.

(** A render that does not throw gives the view [render] computes. *)
Lemma renderPage_Ok h p st v : renderPage h p st = Ok v → v = render p st.
Proof.
  unfold renderPage. destruct (render p st) as [| |l] eqn:Hr;
    try (now intros [= <-]).
  destruct (sidebar h p st); simpl; [|done]. now intros [= <-].
Qed.

(** What a navigation that does not throw has done: the page was rendered
    with the new parameters and the old state, and then either no
    dependency had changed and the state is the old one, or the effect
    ran. *)
Lemma navigate_cases p w w' :
  navigate p w = Ok w' →
  (∃ v, renderPage (w_heap w) p (w_state w) = Ok v)
  ∧ ((depsChanged (w_params w) p = false
      ∧ w' = mkWorld p (w_heap w) (w_state w) (w_console w))
     ∨ (depsChanged (w_params w) p = true
        ∧ ∃ st', useEffect (w_heap w) p (w_state w) = Ok st'
               ∧ (∃ v, renderPage (w_heap w) p st' = Ok v)
               ∧ w' = mkWorld p (w_heap w) st' (w_console w))).
Proof.
  unfold navigate.
  destruct (renderPage (w_heap w) p (w_state w)) as [v|] eqn:Hr1; [|done].
  simpl. intros Hnav. split; [eauto|].
  destruct (depsChanged (w_params w) p).
  - right. split; [done|].
    destruct (useEffect (w_heap w) p (w_state w)) as [st'|]; [|done].
    simpl in Hnav.
    destruct (renderPage (w_heap w) p st') as [v'|] eqn:Hr2; [|done].
    simpl in Hnav. injection Hnav as <-. eauto 10.
  - left. split; [done|]. simpl in Hnav. now injection Hnav as <-.
Qed.

Lemma navigate_Ok p w w' :
  navigate p w = Ok w' →
  w_params w' = p ∧ w_heap w' = w_heap w ∧ w_console w' = w_console w
  ∧ activeTab (w_state w') = activeTab (w_state w)
  ∧ notes (w_state w') = notes (w_state w)
  ∧ comments (w_state w') = comments (w_state w)
  ∧ newComment (w_state w') = newComment (w_state w).
Proof.
  intros Hnav.
  apply navigate_cases in Hnav
    as (_ & [[_ ->]|(_ & st' & Heff & _ & ->)]); simpl.
  - repeat split.
  - apply useEffect_fields in Heff as (_ & ? & ? & ? & ?).
    repeat split; done.
Qed.

(** What one event does to the comments and to the store. *)
Lemma uiStep_comments w e w' :
  uiStep toISOString w e = Ok w' →
  w_heap w `prefix_of` w_heap w'
  ∧ ∃ new, comments (w_state w') = comments (w_state w) ++ new
         ∧ Forall wellFormedComment new.
Proof.
  destruct e as [tab|v|v| |now date| |p]; simpl.
  - intros [= <-]. split; [done|]. exists []. now rewrite app_nil_r.
  - intros [= <-]. split; [done|]. exists []. now rewrite app_nil_r.
  - intros [= <-]. split; [done|]. exists []. now rewrite app_nil_r.
  - intros [= <-]. split; [done|]. exists []. now rewrite app_nil_r.
  - intros [= <-]. split; [done|]. simpl.
    destruct (handlePostComment_cases now date (w_state w))
      as [[Hne ->]|[_ ->]].
    + eexists. split; [reflexivity|]. repeat constructor; try done;
        now destruct (trim_split (newComment (w_state w)))
          as (_ & _ & _ & _ & _ & Hs & He).
    + exists []. now rewrite app_nil_r.
  - unfold handleLessonComplete.
    destruct (activeLesson (w_state w)) as [prev|]; [|done].
    destruct (w_heap w !! prev) as [lesson|]; [|done]. simpl.
    intros [= <-]. simpl. split; [now apply prefix_app_r|].
    exists []. now rewrite app_nil_r.
  - intros Hnav. apply navigate_Ok in Hnav as (_ & -> & _ & _ & _ & -> & _).
    split; [done|]. exists []. now rewrite app_nil_r.
Qed.

Lemma runUI_cons e t w :
  runUI toISOString (e :: t) w
  = match uiStep toISOString w e with
    | Ok w' => runUI toISOString t w'
    | Throw x => Throw x
    end.
Proof. reflexivity. Qed.

Lemma runUI_comments t w w' :
  runUI toISOString t w = Ok w' →
  w_heap w `prefix_of` w_heap w'
  ∧ ∃ new, comments (w_state w') = comments (w_state w) ++ new
         ∧ Forall wellFormedComment new.
Proof.
  revert w. induction t as [|e t IH]; intros w.
  - simpl. intros [= <-]. split; [done|]. exists []. now rewrite app_nil_r.
  - rewrite runUI_cons.
    destruct (uiStep toISOString w e) as [w1|] eqn:Hstep; [|done].
    intros Hrun. destruct (uiStep_comments w e w1 Hstep) as (Hh1 & new1 & Hc1 & Hw1).
    destruct (IH w1 Hrun) as (Hh2 & new2 & Hc2 & Hw2).
    split; [now transitivity (w_heap w1)|].
    exists (new1 ++ new2). rewrite Hc2, Hc1, app_assoc.
    split; [done|]. now apply Forall_app.
Qed.

(** X19: no sequence of events, navigation included, removes, changes or
    reorders a posted comment: the earlier list is always a prefix of the
    later one, so the 'no comments yet' notice never comes back. *)
Theorem comments_only_grow t w w' :
  runUI toISOString t w = Ok w' →
  comments (w_state w) `prefix_of` comments (w_state w')
  ∧ (commentList (w_state w) ≠ NoCommentsYet →
     commentList (w_state w') ≠ NoCommentsYet).
Proof.
  intros Hrun. destruct (runUI_comments t w w' Hrun) as (_ & new & Hc & _).
  split; [rewrite Hc; now apply prefix_app_r|].
  unfold commentList. rewrite Hc, length_app.
  repeat case_bool_decide; try done. lia.
Qed.

(** X20: from the opening of the page on, whatever events follow, every
    comment in the list has the placeholder author and a text that is
    neither empty nor padded with white space. *)
Theorem comments_stay_wellFormed (h : heap) (p : Params) t w w' :
  openPage h p = Ok w →
  runUI toISOString t w = Ok w' →
  Forall wellFormedComment (comments (w_state w')).
Proof.
  intros Hopen Hrun.
  destruct (runUI_comments t w w' Hrun) as (_ & new & Hc & Hnew).
  unfold openPage, mount in Hopen.
  destruct (useEffect h p initialState) as [st|] eqn:Heff; [|done].
  simpl in Hopen. injection Hopen as <-.
  apply useEffect_fields in Heff as (_ & _ & _ & Hcs & _).
  simpl in Hc. now rewrite Hc, Hcs.
Qed.

(** X22: no sequence of events changes an object of the catalog: the
    store only grows, and every location of a catalog array still holds
    the catalog's lesson. *)
Theorem catalog_intact t w w' :
  catalogHeap `prefix_of` w_heap w →
  runUI toISOString t w = Ok w' →
  w_heap w `prefix_of` w_heap w'
  ∧ ∀ k arr r, courseLessons !! k = Some arr → r ∈ arr →
      w_heap w' !! r = catalogHeap !! r
      ∧ is_Some (catalogHeap !! r).
Proof.
  intros Hpre Hrun. destruct (runUI_comments t w w' Hrun) as (Hgrow & _).
  split; [done|]. intros k arr r Hk Hr.
  pose proof (catalog_loc_valid k arr r Hk Hr) as Hlt.
  split; [|now apply lookup_lt_is_Some_2].
  apply extends_lookup; [|done]. now transitivity (w_heap w).
Qed.
End EventFacts.

Lemma comments_only_grow_witness :
  ∃ w', runUI (λ _, lit "T")
          [ChangeNewComment (lit "first"); SubmitComment 1 1;
           ClickComplete; Navigate (mkParams (Some (lit "web-dev-101"))
                                      (Some (lit "lesson-2")));
           ChangeNewComment (lit "  "); SubmitComment 2 2]
          (mkWorld (mkParams (Some (lit "web-dev-101")) None) catalogHeap
             (setActiveLesson (Some 0%nat) initialState) [])
        = Ok w'
      ∧ [] `prefix_of` comments (w_state w')
      ∧ length (comments (w_state w')) = 1%nat.
Proof.
  eexists. split; [reflexivity|]. split; [|reflexivity].
  apply (proj1 (comments_only_grow (λ _, lit "T")
                  [ChangeNewComment (lit "first"); SubmitComment 1 1;
                   ClickComplete;
                   Navigate (mkParams (Some (lit "web-dev-101"))
                               (Some (lit "lesson-2")));
                   ChangeNewComment (lit "  "); SubmitComment 2 2]
                  (mkWorld (mkParams (Some (lit "web-dev-101")) None)
                     catalogHeap (setActiveLesson (Some 0%nat) initialState) [])
                  _ eq_refl)).
Defined.

Lemma comments_stay_wellFormed_witness :
  ∃ w w',
    openPage catalogHeap (mkParams (Some (lit "web-dev-101")) None) = Ok w
    ∧ runUI (λ _, lit "T")
        [ChangeNewComment (lit " padded "); SubmitComment 1 1] w
      = Ok w'
    ∧ length (comments (w_state w')) = 1%nat
    ∧ Forall wellFormedComment (comments (w_state w')).
Proof.
  eexists _, _. split; [reflexivity|]. split; [reflexivity|].
  split; [reflexivity|].
  apply (comments_stay_wellFormed (λ _, lit "T") catalogHeap
           (mkParams (Some (lit "web-dev-101")) None)
           [ChangeNewComment (lit " padded "); SubmitComment 1 1]
           _ _ eq_refl eq_refl).
Defined.

Lemma catalog_intact_witness :
  ∃ w', runUI (λ _, lit "T") [ClickComplete; ClickComplete; ClickComplete]
          (mkWorld (mkParams (Some (lit "web-dev-101")) None) catalogHeap
             (setActiveLesson (Some 0%nat) initialState) [])
        = Ok w'
      ∧ length (w_heap w') = 8%nat
      ∧ w_heap w' !! 0%nat = catalogHeap !! 0%nat.
Proof.
  eexists. split; [reflexivity|]. split; [reflexivity|].
  apply (proj2 (catalog_intact (λ _, lit "T")
                  [ClickComplete; ClickComplete; ClickComplete]
                  (mkWorld (mkParams (Some (lit "web-dev-101")) None)
                     catalogHeap (setActiveLesson (Some 0%nat) initialState) [])
                  _ (reflexivity _) eq_refl)
           (lit "web-dev-101") [0; 1; 2]%nat 0%nat eq_refl).
  apply list_elem_of_here.
Defined.

Section ToggleFacts.
Variable toISOString : Z → jsstring.
Implicit Types (w : World) (e : UIEvent) (t : list UIEvent).

(** An event other than a navigation keeps the held lesson, except for a
    click on the completion button, which toggles it; none of them
    throws while a lesson is held. *)
Lemma uiStep_held w e lesson :
  heldLesson w = Some lesson → isNavigate e = false →
  ∃ w', uiStep toISOString w e = Ok w'
      ∧ heldLesson w'
        = Some (if isClickComplete e then toggled lesson else lesson).
Proof.
  unfold heldLesson. intros Hheld Hnav.
  destruct e as [tab|v|v| |now date| |p]; simpl; try discriminate;
    try (eexists; split; [reflexivity|]; exact Hheld).
  - eexists. split; [reflexivity|]. simpl.
    destruct (handlePostComment_cases toISOString now date (w_state w))
      as [[_ ->]|[_ ->]]; exact Hheld.
  - rewrite (handleLessonComplete_Ok _ _ _ Hheld). simpl.
    eexists. split; [reflexivity|]. simpl. apply currentLesson_new.
Qed.

(** X21: while a lesson is held, no sequence of clicks, key strokes and
    submissions throws, and the held lesson afterwards is the original
    one if the completion button was clicked an even number of times and
    the toggled one if it was clicked an odd number of times. *)
Theorem toggles_by_parity t w lesson :
  heldLesson w = Some lesson →
  Forall (λ e, isNavigate e = false) t →
  ∃ w', runUI toISOString t w = Ok w'
      ∧ heldLesson w'
        = Some (if Nat.odd (length (filter (λ e, isClickComplete e = true) t))
                then toggled lesson else lesson).
Proof.
  intros Hheld Ht. revert w lesson Hheld.
  induction Ht as [|e t He _ IH]; intros w lesson Hheld.
  - exists w. split; [reflexivity|done].
  - destruct (uiStep_held w e lesson Hheld He) as (w1 & Hstep & Hheld1).
    destruct (IH w1 _ Hheld1) as (w' & Hrun & Hheld').
    exists w'. rewrite runUI_cons, Hstep. split; [done|].
    rewrite Hheld'. f_equal. rewrite filter_cons.
    destruct (isClickComplete e) eqn:Hclick.
    + rewrite decide_True by done. simpl length. rewrite Nat.odd_succ.
      rewrite <- Nat.negb_odd.
      destruct (Nat.odd _); simpl; [apply toggled_toggled|done].
    + rewrite decide_False by done. done.
Qed.
End ToggleFacts.

Lemma toggles_by_parity_witness :
  ∃ w', runUI (λ _, lit "T")
          [ClickComplete; ChangeNotes (lit "n"); ClickSaveNotes;
           ClickComplete; ClickTab CommentsTab; ClickComplete]
          (mkWorld (mkParams (Some (lit "web-dev-101")) None) catalogHeap
             (setActiveLesson (Some 0%nat) initialState) [])
        = Ok w'
      ∧ lesson_isCompleted <$> heldLesson w' = Some false.
Proof.
  destruct (catalogHeap !! 0%nat) as [lesson|] eqn:Hl; [|discriminate Hl].
  destruct (toggles_by_parity (λ _, lit "T")
              [ClickComplete; ChangeNotes (lit "n"); ClickSaveNotes;
               ClickComplete; ClickTab CommentsTab; ClickComplete]
              (mkWorld (mkParams (Some (lit "web-dev-101")) None) catalogHeap
                 (setActiveLesson (Some 0%nat) initialState) [])
              lesson Hl) as (w' & Hrun & Hheld).
  - repeat constructor.
  - exists w'. split; [exact Hrun|]. rewrite Hheld.
    injection Hl as <-. reflexivity.
Defined.

(** ** Navigation while mounted *)

Lemma depsChanged_ne (old new : Params) : new ≠ old → depsChanged old new = true.
Proof.
  intros Hne. unfold depsChanged.
  destruct (decide (courseId old = courseId new)) as [Hc|Hc];
    [|now rewrite (bool_decide_eq_false_2 _ Hc)].
  destruct (decide (lessonId old = lessonId new)) as [Hl|Hl];
    [|rewrite (bool_decide_eq_false_2 _ Hl); apply orb_true_iff; left;
      apply orb_true_r].
  exfalso. apply Hne. destruct old, new. simpl in *. congruence.
Qed.

Lemma inherited_truthy c :
  courseLessons_get c = CatInherited → truthyParam c = true.
Proof.
  intros Hget. apply courseLessons_get_inherited in Hget as (k & -> & Hin).
  apply truthyParam_true. exists k. split; [done|]. intros ->.
  vm_compute in Hin.
  repeat (apply elem_of_cons in Hin as [Hin|Hin]; [discriminate Hin|]).
  now apply elem_of_nil in Hin.
Qed.

(** A render throws exactly when the player is to be shown, a lesson being
    held, for a course parameter that names a member of
    [Object.prototype]: [lessons.map] is then not a function. *)
Lemma renderPage_throws h p st :
  renderPage h p st = Throw TypeError ↔
  courseLessons_get (courseId p) = CatInherited ∧ is_Some (activeLesson st).
Proof.
  pose proof (inherited_truthy (courseId p)) as Htruthy.
  unfold renderPage, render, sidebar, lessonsOf.
  destruct (courseLessons_get (courseId p)) as [|arr|];
    destruct (truthyParam (courseId p));
    destruct (activeLesson st) as [l|]; simpl; split;
    try discriminate; try (intros [? ?]; discriminate);
    try (intros [_ [? ?]]; discriminate); try done.
  all: try (intros _; split; [done|eauto]).
  all: try (specialize (Htruthy eq_refl); discriminate).
Qed.

Lemma useEffect_throws h p st :
  useEffect h p st = Throw TypeError ↔
  courseLessons_get (courseId p) = CatInherited
  ∧ truthyParam (lessonId p) = true.
Proof.
  unfold useEffect, initialLesson, findLesson, lessonsOf, truthyParam.
  destruct (lessonId p) as [lid|]; simpl;
    [destruct (negb (bool_decide (lid = [])))|];
    destruct (courseLessons_get (courseId p)); simpl; split;
    try discriminate; try tauto; try (intros [? ?]; discriminate).
Qed.

(** After the effect the page renders: the effect resolves a lesson from
    an array only. *)
Lemma useEffect_renders h p st st' :
  useEffect h p st = Ok st' → ∃ v, renderPage h p st' = Ok v.
Proof.
  intros Heff.
  destruct (renderPage h p st') as [v|[]] eqn:Hr; [eauto|].
  apply renderPage_throws in Hr as [Hget [l Hl]]. exfalso.
  apply useEffect_fields in Heff as (Hinit & _). rewrite Hl in Hinit.
  unfold initialLesson, findLesson, firstLesson, lessonsOf in Hinit.
  rewrite Hget in Hinit.
  destruct (lessonId p) as [lid|]; [destruct (truthy (JSString lid))|];
    discriminate.
Qed.

Lemma depsChanged_iff (old new : Params) :
  courseLessons_get (courseId new) ≠ CatUndefined →
  depsChanged old new = true ↔ new ≠ old.
Proof.
  intros Hknown. split; [|apply depsChanged_ne].
  intros Hdeps ->. unfold depsChanged in Hdeps.
  rewrite !bool_decide_eq_true_2 in Hdeps by done. simpl in Hdeps.
  now destruct (courseLessons_get (courseId old)).
Qed.

(** X23: a change of the route parameters while the component is mounted.
    It throws exactly when the new course parameter names a member of
    [Object.prototype] and either a lesson is held (the render with the new
    parameters fails) or the route differs and has a lesson id (the effect
    fails).  Otherwise, a change to a different route resolves the active
    lesson from the catalog again, so a toggled copy is dropped, while the
    notes, the comments, the comment draft and the active tab are carried
    over; and a navigation to the route of a known course that is already
    shown changes nothing, so there the toggle is kept. *)
Theorem navigate_resolves (p : Params) (w : World) :
  catalogHeap `prefix_of` w_heap w →
  (navigate p w = Throw TypeError ↔
     (∃ k, courseId p = Some k ∧ k ∈ objectPrototypeKeys)
     ∧ (is_Some (activeLesson (w_state w))
        ∨ (p ≠ w_params w ∧ ∃ lid, lessonId p = Some lid ∧ lid ≠ [])))
  ∧ ∀ w', navigate p w = Ok w' →
      (p ≠ w_params w →
         Ok (activeLesson (w_state w')) = initialLesson catalogHeap p)
      ∧ (p = w_params w → courseLessons_get (courseId p) ≠ CatUndefined →
         w' = w)
      ∧ notes (w_state w') = notes (w_state w)
      ∧ comments (w_state w') = comments (w_state w)
      ∧ newComment (w_state w') = newComment (w_state w)
      ∧ activeTab (w_state w') = activeTab (w_state w).
Proof.
  intros Hpre. split.
  - rewrite <- courseLessons_get_inherited, <- truthyParam_true.
    unfold navigate.
    destruct (renderPage (w_heap w) p (w_state w)) as [v|[]] eqn:Hr1; simpl.
    + assert (¬ (courseLessons_get (courseId p) = CatInherited
                 ∧ is_Some (activeLesson (w_state w)))) as Hno.
      { intros Hth. apply (renderPage_throws (w_heap w)) in Hth. congruence. }
      destruct (depsChanged (w_params w) p) eqn:Hdeps.
      * destruct (useEffect (w_heap w) p (w_state w)) as [st'|[]] eqn:Heff;
          simpl.
        -- destruct (useEffect_renders _ _ _ _ Heff) as [v' ->]. simpl.
           split; [discriminate|]. intros [Hget [Hheld|[Hne Hlid]]]; [tauto|].
           assert (useEffect (w_heap w) p (w_state w) = Throw TypeError)
             as Hth by now apply useEffect_throws.
           congruence.
        -- apply useEffect_throws in Heff as [Hget Hlid].
           split; [|done]. intros _. split; [done|]. right. split; [|done].
           apply depsChanged_iff; [|done]. now rewrite Hget.
      * simpl. split; [discriminate|].
        intros [Hget [Hheld|[Hne Hlid]]]; [tauto|].
        apply depsChanged_iff in Hne; [congruence|]. now rewrite Hget.
    + apply renderPage_throws in Hr1 as [Hget Hheld]. tauto.
  - intros w' Hnav.
    pose proof (navigate_Ok p w w' Hnav)
      as (_ & _ & _ & Htab & Hnotes & Hcs & Hnew).
    split; [|split; [|done]].
    + intros Hne.
      apply navigate_cases in Hnav
        as (_ & [[Hdeps _]|(_ & st' & Heff & _ & ->)]).
      * rewrite (depsChanged_ne _ _ Hne) in Hdeps. discriminate.
      * simpl. apply useEffect_fields in Heff as (-> & _).
        now apply initialLesson_extends.
    + intros -> Hknown.
      apply navigate_cases in Hnav
        as (_ & [[_ ->]|(Hdeps & _)]); [now destruct w|].
      apply depsChanged_iff in Hdeps; done.
Qed.

Lemma navigate_resolves_witness :
  (navigate (mkParams (Some (lit "constructor")) None)
     (mkWorld (mkParams (Some (lit "web-dev-101")) None) catalogHeap
        (setActiveLesson (Some 0%nat) initialState) [])
   = Throw TypeError)
  ∧ ∃ h' st' w',
    handleLessonComplete catalogHeap (setActiveLesson (Some 1%nat) initialState)
      = Ok (h', st')
    ∧ navigate (mkParams (Some (lit "web-dev-101")) (Some (lit "lesson-3")))
        (mkWorld (mkParams (Some (lit "web-dev-101")) (Some (lit "lesson-2")))
           h' (setNotes (lit "my notes") st') [])
      = Ok w'
    ∧ Ok (activeLesson (w_state w')) = Ok (Some 2%nat)
    ∧ notes (w_state w') = lit "my notes".
Proof.
  split.
  - apply (proj1 (navigate_resolves
                    (mkParams (Some (lit "constructor")) None)
                    (mkWorld (mkParams (Some (lit "web-dev-101")) None)
                       catalogHeap (setActiveLesson (Some 0%nat) initialState)
                       [])
                    (reflexivity _))).
    split.
    + exists (lit "constructor"). split; [reflexivity|].
      vm_compute. apply list_elem_of_here.
    + left. simpl. eauto.
  - eexists _, _, _. split; [reflexivity|]. split; [reflexivity|].
    destruct (proj2 (navigate_resolves
                (mkParams (Some (lit "web-dev-101")) (Some (lit "lesson-3")))
                (mkWorld
                   (mkParams (Some (lit "web-dev-101")) (Some (lit "lesson-2")))
                   (catalogHeap ++ [toggled (mkLesson (lit "lesson-2")
                      (lit "HTML Basics")
                      (lit "https://www.youtube.com/embed/qz0aGYrrlhU")
                      (lit "20:00") false
                      [mkResource (lit "HTML Cheat Sheet") (lit "#")
                         (lit "pdf")])])
                   (setNotes (lit "my notes")
                      (setActiveLesson (Some 5%nat) initialState)) [])
                (prefix_app_r _ _ _ (reflexivity _))) _ eq_refl)
      as (Hres & _ & Hnotes & _).
    split; [|exact Hnotes]. apply Hres. discriminate.
Defined.

(** ** The renders between events *)

Section RenderFacts.
Variable toISOString : Z → jsstring.
Implicit Types (w : World) (e : UIEvent) (t : list UIEvent).

Lemma renderPage_Ok_iff h p st :
  (∃ v, renderPage h p st = Ok v) ↔
  ¬ (courseLessons_get (courseId p) = CatInherited
     ∧ is_Some (activeLesson st)).
Proof.
  rewrite <- (renderPage_throws h).
  destruct (renderPage h p st) as [v|[]]; split; eauto; try done.
  now intros [v ?].
Qed.

(** An event takes a page that renders to a page that renders. *)
Lemma uiStep_renders w e w' :
  (∃ v, renderPage (w_heap w) (w_params w) (w_state w) = Ok v) →
  uiStep toISOString w e = Ok w' →
  ∃ v, renderPage (w_heap w') (w_params w') (w_state w') = Ok v.
Proof.
  intros Hr. destruct e as [tab|v|v| |now date| |p]; simpl;
    try (intros [= <-]; simpl; apply renderPage_Ok_iff;
         now apply renderPage_Ok_iff in Hr).
  - intros [= <-]. simpl. apply renderPage_Ok_iff.
    apply renderPage_Ok_iff in Hr.
    now destruct (handlePostComment_cases toISOString now date (w_state w))
      as [[_ ->]|[_ ->]].
  - unfold handleLessonComplete.
    destruct (activeLesson (w_state w)) as [prev|] eqn:Hprev; [|done].
    destruct (w_heap w !! prev) as [lesson|]; [|done]. simpl.
    intros [= <-]. simpl. apply renderPage_Ok_iff.
    apply renderPage_Ok_iff in Hr. rewrite Hprev in Hr.
    intros [Hget _]. apply Hr. eauto.
  - intros Hnav.
    apply navigate_cases in Hnav
      as (Hr1 & [[_ ->]|(_ & st' & _ & Hr2 & ->)]); done.
Qed.

(** From the opening of the page on, every page the events lead to
    renders: the renders that follow the events other than a navigation
    do not throw. *)
Lemma reachable_pages_render (h : heap) (p : Params) t w w' :
  openPage h p = Ok w →
  runUI toISOString t w = Ok w' →
  ∃ v, renderPage (w_heap w') (w_params w') (w_state w') = Ok v.
Proof.
  intros Hopen Hrun.
  assert (∃ v, renderPage (w_heap w) (w_params w) (w_state w) = Ok v) as Hr.
  { unfold openPage, mount in Hopen.
    destruct (useEffect h p initialState) as [st|] eqn:Heff; [|done].
    simpl in Hopen. injection Hopen as <-. simpl.
    now apply (useEffect_renders _ _ initialState). }
  clear Hopen. revert w Hr Hrun. induction t as [|e t IH]; intros w Hr.
  - simpl. now intros [= <-].
  - rewrite runUI_cons.
    destruct (uiStep toISOString w e) as [w1|] eqn:Hstep; [|done].
    apply IH. now apply (uiStep_renders w e).
Qed.
End RenderFacts.

(** ** Comment identifiers and sequences of posts *)

Lemma lit_inj s1 s2 : lit s1 = lit s2 → s1 = s2.
Proof.
  revert s2. induction s1 as [|a s1 IH]; intros [|b s2]; simpl; try done.
  intros [= Hab Hs]. f_equal; [|now apply IH].
  rewrite <- (ascii_N_embedding a), <- (ascii_N_embedding b). now rewrite Hab.
Qed.

Lemma numberToString_inj n1 n2 : numberToString n1 = numberToString n2 → n1 = n2.
Proof. unfold numberToString. intros H. apply lit_inj in H. now apply (inj pretty). Qed.

Section PostFacts.
Variable toISOString : Z → jsstring.
Implicit Types (w : World) (st : State).

(** X24: the identifier of a comment, which also serves as the key of its
    block in the list, is taken from the clock alone: two comments have
    the same identifier exactly when they were posted at the same clock
    reading. *)
Theorem comment_ids_collide_iff
    (st : State) (text2 : jsstring) (now1 date1 now2 date2 : Z) :
  trim (newComment st) ≠ [] → trim text2 ≠ [] →
  ∃ c1 c2,
    comments (handlePostComment toISOString now2 date2
                (setNewComment text2
                   (handlePostComment toISOString now1 date1 st)))
      = comments st ++ [c1; c2]
    ∧ (comment_id c1 = comment_id c2 ↔ now1 = now2).
Proof.
  intros H1 H2. rewrite (handlePostComment_accept _ now1 date1 st H1).
  rewrite handlePostComment_accept by done. simpl.
  eexists _, _. split; [now rewrite <- app_assoc|]. simpl. split.
  - apply numberToString_inj.
  - now intros ->.
Qed.

(** X25: typing and submitting a series of texts appends one comment for
    each text that is not blank, in the order of submission, and nothing
    for the blank ones; the notes, the held lesson and the store are not
    touched. *)
Theorem posts_in_order (subs : list (jsstring * Z * Z)) (w : World) :
  ∃ w', runUI toISOString (subs ≫= typeAndSubmit) w = Ok w'
      ∧ comments (w_state w')
        = comments (w_state w)
            ++ ((λ s, commentOf toISOString s.1.1 s.1.2 s.2)
                  <$> filter (λ s, trim s.1.1 ≠ []) subs)
      ∧ notes (w_state w') = notes (w_state w)
      ∧ activeLesson (w_state w') = activeLesson (w_state w)
      ∧ w_heap w' = w_heap w.
Proof.
  revert w. induction subs as [|[[text now] date] subs IH]; intros w.
  - exists w. simpl. now rewrite app_nil_r.
  - set (st1 := handlePostComment toISOString now date
                  (setNewComment text (w_state w))).
    destruct (IH (withState st1 w)) as (w' & Hrun & Hc & Hn & Ha & Hh).
    exists w'. split; [exact Hrun|].
    rewrite Hc, Hn, Ha, Hh. rewrite filter_cons. simpl. unfold st1.
    destruct (handlePostComment_cases toISOString now date
                (setNewComment text (w_state w))) as [[Hne ->]|[He ->]];
      simpl in *.
    + rewrite decide_True by done. simpl.
      now rewrite <- app_assoc.
    + rewrite decide_False by (intros Hne; now apply Hne). done.
Qed.
End PostFacts.

Lemma comment_ids_collide_iff_witness :
  ∃ c1 c2,
    comments (handlePostComment (λ _, lit "T") 5 5
                (setNewComment (lit "b")
                   (handlePostComment (λ _, lit "T") 5 5
                      (setNewComment (lit "a") initialState))))
      = [] ++ [c1; c2]
    ∧ (comment_id c1 = comment_id c2 ↔ 5 = 5).
Proof.
  apply (comment_ids_collide_iff (λ _, lit "T")
           (setNewComment (lit "a") initialState) (lit "b") 5 5 5 5);
    vm_compute; discriminate.
Defined.

(** ** The 'Course Not Found' view *)

(** X26: 'Course Not Found' is shown exactly when the course parameter is
    missing, or is a string that names neither a course of the catalog nor
    a member of [Object.prototype]; a lesson parameter plays no part. *)
Theorem view_course_not_found_iff (h : heap) (p : Params) :
  view h p = Ok CourseNotFound ↔
  ∀ k, courseId p = Some k →
    courseLessons !! k = None ∧ k ∉ objectPrototypeKeys.
Proof.
  split.
  - intros Hview k Hk.
    destruct (courseLessons !! k) as [arr|] eqn:Hown.
    + exfalso. unfold view, mount, useEffect in Hview.
      destruct (initialLesson h p) as [l|]; [|done]. simpl in Hview.
      unfold render in Hview. simpl in Hview. rewrite Hk in Hview.
      rewrite (courseLessons_key_nonempty k arr Hown) in Hview.
      rewrite (courseLessons_get_own k arr Hown) in Hview. simpl in Hview.
      now destruct l.
    + split; [done|]. intros Hin.
      assert (courseLessons_get (courseId p) = CatInherited) as Hget
        by (apply courseLessons_get_inherited; eauto).
      assert (truthyParam (courseId p) = true) as Htruthy.
      { rewrite Hk. apply truthyParam_true. exists k. split; [done|].
        intros ->. vm_compute in Hin.
        repeat (apply elem_of_cons in Hin as [Hin|Hin]; [discriminate Hin|]).
        now apply elem_of_nil in Hin. }
      unfold view, mount, useEffect in Hview.
      destruct (initialLesson h p) as [l|]; [|done]. simpl in Hview.
      unfold render in Hview. simpl in Hview.
      rewrite Htruthy, Hget in Hview. simpl in Hview. now destruct l.
  - intros Hk. destruct p as [[k|] lessonParam]; [|apply view_no_course].
    destruct (Hk k eq_refl) as [Hown Hproto].
    now apply view_course_not_found.
Qed.

Lemma view_course_not_found_iff_witness :
  view catalogHeap (mkParams (Some (lit "python-101")) (Some (lit "lesson-1")))
  = Ok CourseNotFound.
Proof.
  apply (proj2 (view_course_not_found_iff catalogHeap
                  (mkParams (Some (lit "python-101")) (Some (lit "lesson-1"))))).
  intros k [= <-]. split; [reflexivity|]. intros Hin. vm_compute in Hin.
  repeat (apply elem_of_cons in Hin as [Hin|Hin]; [discriminate Hin|]).
  now apply elem_of_nil in Hin.
Defined.

Lemma view_throws_iff_witness :
  view catalogHeap (mkParams (Some (lit "toString")) (Some (lit "lesson-1")))
  = Throw TypeError.
Proof.
  apply (proj2 (view_throws_iff catalogHeap
                  (mkParams (Some (lit "toString")) (Some (lit "lesson-1"))))).
  split.
  - exists (lit "toString"). split; [reflexivity|].
    vm_compute. do 5 apply list_elem_of_further. apply list_elem_of_here.
  - exists (lit "lesson-1"). split; [reflexivity|discriminate].
Defined.
